(** * bn_coin: the filter-coins and networks handlers of [src/index.ts]

    A shallow embedding of the two Express handlers and of the part of the
    JavaScript runtime they rely on (strings, ordinary objects used as
    dictionaries, [Set], [Array.prototype.sort]), followed by the properties
    of the handlers. *)

From Stdlib Require Import String Ascii Bool Arith NArith ZArith QArith List.
From Stdlib Require Import Lia Permutation Sorted.
Import ListNotations.

Local Open Scope nat_scope.
Local Open Scope list_scope.
Set Warnings "-register-all".

(* ===================================================================== *)
(** * The JavaScript runtime, as far as the handlers use it *)
(* ===================================================================== *)

Module Js.

(** A JavaScript string is a sequence of UTF-16 code units; [length] is the
    number of code units, as [String.prototype.length] reports it. *)
Definition code_unit := N.
Definition jsstring := list code_unit.

(** String literals of the source, all of them ASCII. *)
Definition lit (s : string) : jsstring :=
  map N_of_ascii (list_ascii_of_string s).

Fixpoint str_eqb (a b : jsstring) : bool :=
  match a, b with
  | [], [] => true
  | x :: a', y :: b' => N.eqb x y && str_eqb a' b'
  | _, _ => false
  end.

(** Values that travel in a JSON request or response body.  [VUndefined] is
    what a missing property or a missing body reads as. *)
Inductive value : Type :=
| VUndefined
| VNull
| VBool (b : bool)
| VNum (q : Q)
| VStr (s : jsstring)
| VArr (elems : list value)
| VObj (fields : list (jsstring * value)).

Definition num (n : nat) : value := VNum (inject_Z (Z.of_nat n)).

(** [obj.key] on a value that came out of [JSON.parse]: own properties of an
    object, [undefined] everywhere else the handlers look. *)
Fixpoint field (fields : list (jsstring * value)) (k : jsstring) : option value :=
  match fields with
  | [] => None
  | (k', v) :: rest => if str_eqb k' k then Some v else field rest k
  end.

(** ** Ordinary objects used as dictionaries

    An object created by [{}] is kept as the list of its own data
    properties in creation order, with pairwise distinct keys.  Its
    prototype is [Object.prototype]. *)
Section Dictionary.
Context {V : Type}.

Definition props := list (jsstring * V).

Fixpoint getOwn (o : props) (k : jsstring) : option V :=
  match o with
  | [] => None
  | (k', v) :: rest => if str_eqb k' k then Some v else getOwn rest k
  end.

(** Writing an own data property: an existing key keeps its place, a new
    key goes last. *)
Fixpoint defineOwn (o : props) (k : jsstring) (v : V) : props :=
  match o with
  | [] => [(k, v)]
  | (k', v') :: rest =>
      if str_eqb k' k then (k', v) :: rest else (k', v') :: defineOwn rest k v
  end.

(** [o[k] = v].  Every property of [Object.prototype] is a writable data
    property, so the assignment creates or updates an own property,
    except for [__proto__], an accessor: its setter replaces the
    prototype when [v] is an object and does nothing otherwise.  Either
    way no own property appears, and the prototype is neither enumerated
    nor serialised. *)
Definition assign (o : props) (k : jsstring) (v : V) : props :=
  match getOwn o k with
  | Some _ => defineOwn o k v
  | None => if str_eqb k (lit "__proto__") then o else defineOwn o k v
  end.

(** Array indices: canonical decimal numerals of 0 .. 2^32 - 2. *)
Definition digit (c : code_unit) : option N :=
  if (N.leb 48 c && N.leb c 57)%bool then Some (c - 48)%N else None.

Fixpoint digitsValue (acc : N) (s : jsstring) : option N :=
  match s with
  | [] => Some acc
  | c :: rest =>
      match digit c with
      | Some d => digitsValue (10 * acc + d)%N rest
      | None => None
      end
  end.

Definition arrayIndex (s : jsstring) : option N :=
  match s with
  | [] => None
  | c :: rest =>
      if (N.eqb c 48 && negb (match rest with [] => true | _ => false end))%bool
      then None
      else match digitsValue 0 s with
           | Some n => if N.leb n 4294967294 then Some n else None
           | None => None
           end
  end.

Definition isIndexKey (k : jsstring) : bool :=
  match arrayIndex k with Some _ => true | None => false end.

Fixpoint insertByIndex (e : N * (jsstring * V)) (l : list (N * (jsstring * V)))
  : list (N * (jsstring * V)) :=
  match l with
  | [] => [e]
  | e' :: rest =>
      if N.leb (fst e) (fst e') then e :: e' :: rest
      else e' :: insertByIndex e rest
  end.

Definition indexed (o : props) : list (N * (jsstring * V)) :=
  flat_map (fun p => match arrayIndex (fst p) with
                     | Some n => [(n, p)]
                     | None => []
                     end) o.

(** [Object.entries], [Object.keys], the spread [{...o}] and
    [JSON.stringify] all walk the own properties in this order: array
    indices in ascending numeric order, then the other keys in creation
    order. *)
Definition ownEntries (o : props) : list (jsstring * V) :=
  map snd (fold_right insertByIndex [] (indexed o))
  ++ filter (fun p => negb (isIndexKey (fst p))) o.

Definition ownKeys (o : props) : list jsstring := map fst (ownEntries o).

(** [{...o, [k]: v}]: a fresh object receives the entries of [o] in
    enumeration order and then the computed key, each as an own data
    property. *)
Definition spreadWith (o : props) (k : jsstring) (v : V) : props :=
  defineOwn (ownEntries o) k v.
End Dictionary.

Arguments props V : clear implicits.

(** What [Object.prototype] holds in Node: eleven functions, given with
    their [length], and the accessor [__proto__]. *)
Inductive inherited : Type :=
| BuiltinFunction (arity : nat)
| ProtoAccessor.

Definition objectPrototype : list (jsstring * inherited) :=
  [ (lit "constructor", BuiltinFunction 1);
    (lit "__defineGetter__", BuiltinFunction 2);
    (lit "__defineSetter__", BuiltinFunction 2);
    (lit "hasOwnProperty", BuiltinFunction 1);
    (lit "__lookupGetter__", BuiltinFunction 1);
    (lit "__lookupSetter__", BuiltinFunction 1);
    (lit "isPrototypeOf", BuiltinFunction 1);
    (lit "propertyIsEnumerable", BuiltinFunction 1);
    (lit "toString", BuiltinFunction 0);
    (lit "valueOf", BuiltinFunction 0);
    (lit "toLocaleString", BuiltinFunction 0);
    (lit "__proto__", ProtoAccessor) ].

(** The result of reading [o[k]] on a dictionary of strings. *)
Inductive lookup : Type :=
| Found (s : jsstring)
| FoundFunction (arity : nat)
| FoundPrototype
| NotFound.

Definition get (o : props jsstring) (k : jsstring) : lookup :=
  match getOwn o k with
  | Some s => Found s
  | None =>
      match getOwn objectPrototype k with
      | Some (BuiltinFunction a) => FoundFunction a
      | Some ProtoAccessor => FoundPrototype
      | None => NotFound
      end
  end.

(** ** [Set]

    The handler only ever calls [has] on its set, so the set is kept as the
    array it was built from.  [has] compares with SameValueZero; the
    argument is always a string, which only an equal string matches. *)
Definition jsset := list value.

Definition Set_of (elems : list value) : jsset := elems.

Definition sameString (s : jsstring) (v : value) : bool :=
  match v with
  | VStr s' => str_eqb s' s
  | _ => false
  end.

Definition has (s : jsset) (k : jsstring) : bool := existsb (sameString k) s.

(** ** [Array.prototype.sort]

    A stable sort; [cmp a b] negative or zero leaves [a] before [b].  With
    a consistent comparator every stable sort returns this list. *)
Section Sort.
Context {A : Type} (cmp : A -> A -> Z).

Fixpoint insertSorted (x : A) (l : list A) : list A :=
  match l with
  | [] => [x]
  | y :: rest =>
      if Z.leb (cmp x y) 0 then x :: y :: rest else y :: insertSorted x rest
  end.

Definition sort (l : list A) : list A := fold_right insertSorted [] l.
End Sort.

(** Code-unit order: a concrete comparator, which orders decimal digits
    and the ASCII letters of one case as the root collation does. *)
Fixpoint codeUnitCompare (a b : jsstring) : Z :=
  match a, b with
  | [], [] => 0
  | [], _ :: _ => (-1)
  | _ :: _, [] => 1
  | x :: a', y :: b' =>
      match N.compare x y with
      | Lt => (-1)
      | Gt => 1
      | Eq => codeUnitCompare a' b'
      end
  end%Z.

End Js.

Import Js.

(* ===================================================================== *)
(** * Data model *)
(* ===================================================================== *)

(** [interface Network], [interface Coin] and [interface ApiResponse], with
    the fields the handlers read.  The remaining fields of the upstream
    schema are descriptive and are never consulted. *)
Record Network : Type := mkNetwork {
  network : jsstring;
  net_name : jsstring;
  depositEnable : bool;
  withdrawEnable : bool
}.

Record Coin : Type := mkCoin {
  coin : jsstring;
  coin_name : jsstring;
  networkList : list Network
}.

Record ApiResponse : Type := mkApiResponse {
  data : list Coin
}.

(** [interface SimplifiedNetwork] and [interface SimplifiedCoin]. *)
Record SimplifiedNetwork : Type := mkSimplifiedNetwork {
  sn_name : jsstring;
  sn_withdrawEnable : bool;
  sn_depositEnable : bool
}.

Record SimplifiedCoin : Type := mkSimplifiedCoin {
  sc_coin : jsstring;
  sc_name : jsstring;
  networks : props SimplifiedNetwork
}.

(** [interface NetworkInfo]: network code -> network name. *)
Definition NetworkInfo := props jsstring.

(** What [res.json] writes for the derived records. *)
Definition jsonOfSimplifiedNetwork (n : SimplifiedNetwork) : value :=
  VObj [ (lit "name", VStr (sn_name n));
         (lit "withdrawEnable", VBool (sn_withdrawEnable n));
         (lit "depositEnable", VBool (sn_depositEnable n)) ].

Definition jsonOfSimplifiedCoin (c : SimplifiedCoin) : value :=
  VObj [ (lit "coin", VStr (sc_coin c));
         (lit "name", VStr (sc_name c));
         (lit "networks",
          VObj (map (fun p => (fst p, jsonOfSimplifiedNetwork (snd p)))
                    (ownEntries (networks c)))) ].

Definition jsonOfNetworkInfo (m : NetworkInfo) : value :=
  VObj (map (fun p => (fst p, VStr (snd p))) (ownEntries m)).

(* ===================================================================== *)
(** * Requests, responses and the world around a handler *)
(* ===================================================================== *)

(** What a [throw] carries: the rejection of the upstream call, with the
    detail the transport reports, or a [TypeError] of the runtime. *)
Inductive exn : Type :=
| AxiosError (detail : jsstring)
| TypeError (detail : jsstring).

(** How the upstream call ends.  [Resolves] carries a body that matches the
    declared interfaces; [axios] does not check that, and a body that does
    not match (no [data] array, a coin without [networkList]) can make a
    later step of a handler throw, a path left out here. *)
Inductive outcome : Type :=
| Rejects (e : exn)
| Resolves (r : ApiResponse).

(** The world of one request: how the upstream will answer, how many
    upstream calls were issued, and what [console.error] printed. *)
Record world : Type := mkWorld {
  upstream : outcome;
  fetchCalls : nat;
  console : list (jsstring * exn)
}.

Record request : Type := mkRequest {
  body : value
}.

Record response : Type := mkResponse {
  status : nat;
  payload : value
}.

(** Computations that read and write the world and may throw. *)
Definition M (A : Type) : Type := world -> (exn + A) * world.

Definition ret {A} (a : A) : M A := fun w => (inr a, w).

Definition throw {A} (e : exn) : M A := fun w => (inl e, w).

Definition bind {A B} (m : M A) (k : A -> M B) : M B :=
  fun w =>
    match m w with
    | (inl e, w') => (inl e, w')
    | (inr a, w') => k a w'
    end.

Definition tryCatch {A} (m : M A) (handler : exn -> M A) : M A :=
  fun w =>
    match m w with
    | (inl e, w') => handler e w'
    | (inr a, w') => (inr a, w')
    end.

Notation "x <- m ;; k" := (bind m (fun x => k))
  (at level 61, m at next level, right associativity).
Notation "m ;;; k" := (bind m (fun _ => k))
  (at level 61, right associativity).

Definition console_error (label : jsstring) (e : exn) : M unit :=
  fun w => (inr tt, mkWorld (upstream w) (fetchCalls w) (console w ++ [(label, e)])).

(** [axios.get]: one outbound call, answered as the world says. *)
Definition axios_get : M ApiResponse :=
  fun w =>
    let w' := mkWorld (upstream w) (S (fetchCalls w)) (console w) in
    match upstream w with
    | Rejects e => (inl e, w')
    | Resolves r => (inr r, w')
    end.

(** Reading property [k] of the request body: [None] when the body is
    [undefined] or [null], where the read throws; [undefined] when the
    property is missing. *)
Definition getV (b : value) (k : jsstring) : option value :=
  match b with
  | VUndefined | VNull => None
  | VObj fields =>
      match field fields k with
      | Some v => Some v
      | None => Some VUndefined
      end
  | _ => Some VUndefined
  end.

(** [const { networks } = req.body]. *)
Definition destructure (b : value) (k : jsstring) : M value :=
  match getV b k with
  | Some v => ret v
  | None => throw (TypeError (lit "Cannot destructure property of req.body"))
  end.

Definition isArray (v : value) : bool :=
  match v with VArr _ => true | _ => false end.

(** [payload.key] of a response body. *)
Definition member (v : value) (k : jsstring) : option value :=
  match v with
  | VObj fields => field fields k
  | _ => None
  end.

(** The body with one field taken away. *)
Definition without (k : jsstring) (v : value) : value :=
  match v with
  | VObj fields => VObj (filter (fun p => negb (str_eqb (fst p) k)) fields)
  | _ => v
  end.

(** [res.status(code).json(v)]; [res.json(v)] answers with status 200. *)
Definition json (code : nat) (v : value) : M response :=
  ret (mkResponse code v).


(* ===================================================================== *)
(** * [src/index.ts] *)
(* ===================================================================== *)

Module Index.

Definition fetchBinanceData : M ApiResponse :=
  tryCatch axios_get
    (fun error =>
       console_error (lit "Error fetching data from Binance:") error ;;;
       throw error).

(** The predicate of [.filter]: some network of the coin is not in the
    whitelist. *)
Definition hasOtherNetwork (whitelistedNetworks : jsset) (c : Coin) : bool :=
  existsb (fun n => negb (has whitelistedNetworks (network n))) (networkList c).

(** The [forEach] that fills [networkMap]. *)
Definition networkMap (c : Coin) : props SimplifiedNetwork :=
  fold_left
    (fun m n =>
       assign m (network n)
         (mkSimplifiedNetwork (net_name n) (withdrawEnable n) (depositEnable n)))
    (networkList c) [].

(** The callback of [.map]. *)
Definition toSimplified (c : Coin) : SimplifiedCoin :=
  mkSimplifiedCoin (coin c) (coin_name c) (networkMap c).

Definition filteredCoins (dataset : list Coin) (networks : list value)
  : list SimplifiedCoin :=
  let whitelistedNetworks := Set_of networks in
  map toSimplified (filter (hasOtherNetwork whitelistedNetworks) dataset).

Definition serverError : value :=
  VObj [ (lit "success", VBool false);
         (lit "message", VStr (lit "Internal server error")) ].

Definition badRequest : value :=
  VObj [ (lit "success", VBool false);
         (lit "message", VStr (lit "Networks must be an array")) ].

(** The [try] block of the filter-coins handler. *)
Definition filterCoinsTry (req : request) : M response :=
  networks <- destructure (body req) (lit "networks") ;;
  match networks with
  | VArr elems =>
      binanceResponse <- fetchBinanceData ;;
      let dataset := data binanceResponse in
      let filtered := filteredCoins dataset elems in
      json 200
        (VObj [ (lit "success", VBool true);
                (lit "total", num (length filtered));
                (lit "totalCoins", num (length dataset));
                (lit "data", VArr (map jsonOfSimplifiedCoin filtered)) ])
  | _ => json 400 badRequest
  end.

(** Its [catch] block, shared in shape with the networks handler. *)
Definition onError (error : exn) : M response :=
  console_error (lit "Error processing request:") error ;;;
  json 500 serverError.

Definition filterCoinsHandler (req : request) : M response :=
  tryCatch (filterCoinsTry req) onError.

(** The body of the inner [forEach] of the networks handler:
    [if (!networksMap[code] || networksMap[code].length < name.length)
       networksMap[code] = name]. *)
Definition shouldRecord (networksMap : NetworkInfo) (n : Network) : bool :=
  match get networksMap (network n) with
  | Found s =>
      (match s with [] => true | _ => false end)
      || (length s <? length (net_name n))
  | FoundFunction arity => arity <? length (net_name n)
  | FoundPrototype => false
  | NotFound => true
  end.

Definition record (networksMap : NetworkInfo) (n : Network) : NetworkInfo :=
  if shouldRecord networksMap n
  then assign networksMap (network n) (net_name n)
  else networksMap.

Definition networksMap (dataset : list Coin) : NetworkInfo :=
  fold_left (fun m c => fold_left record (networkList c) m) dataset [].

Section Collation.
(** [String.prototype.localeCompare] under the collation of the host. *)
Variable localeCompare : jsstring -> jsstring -> Z.

Definition sortedNetworks (m : NetworkInfo) : NetworkInfo :=
  fold_left (fun obj e => spreadWith obj (fst e) (snd e))
    (sort (fun a b => localeCompare (fst a) (fst b)) (ownEntries m))
    [].

(** The [try] block of the networks handler. *)
Definition networksTry (_req : request) : M response :=
  binanceResponse <- fetchBinanceData ;;
  let m := networksMap (data binanceResponse) in
  json 200
    (VObj [ (lit "success", VBool true);
            (lit "total", num (length (ownKeys m)));
            (lit "data", jsonOfNetworkInfo (sortedNetworks m)) ]).

Definition networksHandler (req : request) : M response :=
  tryCatch (networksTry req) onError.
End Collation.

End Index.

(* ===================================================================== *)
(** * [src/unnamed/part_000]: the earlier filter-coins handler *)
(* ===================================================================== *)

Module Part000.

Definition fetchBinanceData : M ApiResponse :=
  tryCatch axios_get
    (fun error =>
       console_error (lit "Error fetching data from Binance:") error ;;;
       throw error).

Definition filteredCoins (dataset : list Coin) (networks : list value)
  : list SimplifiedCoin :=
  let whitelistedNetworks := Set_of networks in
  map (fun c =>
         mkSimplifiedCoin (coin c) (coin_name c)
           (fold_left
              (fun m n =>
                 assign m (network n)
                   (mkSimplifiedNetwork (net_name n) (withdrawEnable n)
                      (depositEnable n)))
              (networkList c) []))
      (filter
         (fun c =>
            existsb (fun n => negb (has whitelistedNetworks (network n)))
              (networkList c))
         dataset).

Definition filterCoinsHandler (req : request) : M response :=
  tryCatch
    (networks <- destructure (body req) (lit "networks") ;;
     match networks with
     | VArr elems =>
         binanceResponse <- fetchBinanceData ;;
         let dataset := data binanceResponse in
         let filtered := filteredCoins dataset elems in
         json 200
           (VObj [ (lit "success", VBool true);
                   (lit "total", num (length filtered));
                   (lit "data", VArr (map jsonOfSimplifiedCoin filtered)) ])
     | _ =>
         json 400
           (VObj [ (lit "success", VBool false);
                   (lit "message", VStr (lit "Networks must be an array")) ])
     end)
    (fun error =>
       console_error (lit "Error processing request:") error ;;;
       json 500
         (VObj [ (lit "success", VBool false);
                 (lit "message", VStr (lit "Internal server error")) ])).

End Part000.

(* ===================================================================== *)
(** * Sample data *)
(* ===================================================================== *)

Definition net (code name : string) : Network :=
  mkNetwork (lit code) (lit name) true true.

(** The dataset of the specification's filter scenario. *)
Definition scenarioDataset : list Coin :=
  [ mkCoin (lit "BTC") (lit "Bitcoin")
      [ net "BSC" "BNB Smart Chain (BEP20)"; net "ETH" "Ethereum (ERC20)" ];
    mkCoin (lit "ETH") (lit "Ethereum") [ net "ETH" "Ethereum (ERC20)" ] ].

(** A coin on a network whose code names the prototype accessor. *)
Definition protoCoin : Coin :=
  mkCoin (lit "X") (lit "X coin")
    [ net "__proto__" "Proto chain"; net "ETH" "Ethereum (ERC20)" ].

(** A coin on two networks whose codes are decimal numerals. *)
Definition numericCoin : Coin :=
  mkCoin (lit "Y") (lit "Y coin") [ net "10" "Ten"; net "9" "Nine" ].

Definition idleWorld (r : outcome) : world := mkWorld r 0 [].

Definition whitelistRequest (codes : list string) : request :=
  mkRequest (VObj [ (lit "networks", VArr (map (fun c => VStr (lit c)) codes)) ]).

(** The answer the specification's scenario expects. *)
Definition scenarioResponse : response :=
  mkResponse 200
    (VObj [ (lit "success", VBool true);
            (lit "total", num 1);
            (lit "totalCoins", num 2);
            (lit "data",
             VArr [ VObj [ (lit "coin", VStr (lit "BTC"));
                           (lit "name", VStr (lit "Bitcoin"));
                           (lit "networks",
                            VObj [ (lit "BSC",
                                    jsonOfSimplifiedNetwork
                                      (mkSimplifiedNetwork
                                         (lit "BNB Smart Chain (BEP20)") true true));
                                   (lit "ETH",
                                    jsonOfSimplifiedNetwork
                                      (mkSimplifiedNetwork
                                         (lit "Ethereum (ERC20)") true true)) ]) ] ]) ]).

(** The two endpoints, their [try] blocks and their handlers. *)
Inductive endpoint : Type := FilterCoins | Networks.

Definition tryBlock (cmp : jsstring -> jsstring -> Z) (ep : endpoint)
  : request -> M response :=
  match ep with
  | FilterCoins => Index.filterCoinsTry
  | Networks => Index.networksTry cmp
  end.

Definition handler (cmp : jsstring -> jsstring -> Z) (ep : endpoint)
  : request -> M response :=
  match ep with
  | FilterCoins => Index.filterCoinsHandler
  | Networks => Index.networksHandler cmp
  end.

(** Something in the [try] block throws [e]. *)
Definition failsWith (cmp : jsstring -> jsstring -> Z) (ep : endpoint)
  (req : request) (w : world) (e : exn) : Prop :=
  exists w1, tryBlock cmp ep req w = (inl e, w1).

(** A handler's outcome with the response body rewritten by [f]. *)
Definition mapPayload (f : value -> value) (res : (exn + response) * world)
  : (exn + response) * world :=
  match res with
  | (inr r, w) => (inr (mkResponse (status r) (f (payload r))), w)
  | (inl e, w) => (inl e, w)
  end.

(** The [data] field of the body a handler answered with. *)
Definition member_data (res : exn + response) : option value :=
  match res with
  | inr r => member (payload r) (lit "data")
  | inl _ => None
  end.

(** Keys in ascending order under a comparator. *)
Definition ascending (cmp : jsstring -> jsstring -> Z) (keys : list jsstring) : Prop :=
  StronglySorted (fun a b => (cmp a b <= 0)%Z) keys.

Definition hasNetworks (c : Coin) : bool :=
  match networkList c with [] => false | _ :: _ => true end.

(** All network codes of a dataset, in upstream order. *)
Definition codes (dataset : list Coin) : list jsstring :=
  flat_map (fun c => map network (networkList c)) dataset.

(** All networks of a dataset, in the order the networks handler visits
    them. *)
Definition allNetworks (dataset : list Coin) : list Network :=
  flat_map networkList dataset.

(** A code that is neither an array index nor the name of a property of
    [Object.prototype]. *)
Definition plainKey (k : jsstring) : Prop :=
  arrayIndex k = None /\ getOwn objectPrototype k = None.

(** [s] is the name of the first network with code [k] in [ns] whose name
    no other network with code [k] exceeds in length. *)
Definition firstLongest (k s : jsstring) (ns : list Network) : Prop :=
  exists before n after,
    ns = before ++ n :: after
    /\ network n = k /\ net_name n = s
    /\ Forall (fun n' => network n' = k -> length (net_name n') < length s) before
    /\ Forall (fun n' => network n' = k -> length (net_name n') <= length s) after.

(** A name the update passes over while nothing is recorded for its code:
    the code names a function of [Object.prototype] whose arity the name
    does not exceed in length, or it is [__proto__]. *)
Definition shadowed (k name : jsstring) : bool :=
  match getOwn objectPrototype k with
  | Some (BuiltinFunction arity) => negb (arity <? length name)
  | Some ProtoAccessor => true
  | None => false
  end.

(** Two array-index keys in numeric order. *)
Definition numericLe (a b : jsstring) : Prop :=
  match arrayIndex a, arrayIndex b with
  | Some x, Some y => (x <= y)%N
  | _, _ => False
  end.

(** The entry a network contributes to the network map of its coin. *)
Definition networkEntry (n : Network) : jsstring * SimplifiedNetwork :=
  (network n, mkSimplifiedNetwork (net_name n) (withdrawEnable n) (depositEnable n)).

(** The whitelist of the request, when the handler gets as far as using
    it. *)
Definition whitelistOf (req : request) : option (list value) :=
  match getV (body req) (lit "networks") with
  | Some (VArr elems) => Some elems
  | _ => None
  end.

(** A coin has a network whose code the whitelist lacks. *)
Definition nonWhitelisted (whitelist : list value) (c : Coin) : Prop :=
  exists n, In n (networkList c) /\ ~ In (VStr (network n)) whitelist.

(** The last network of a list that carries code [k]. *)
Definition lastWithCode (k : jsstring) (l : list Network) : option Network :=
  find (fun n => str_eqb (network n) k) (rev l).

Definition summary (n : Network) : SimplifiedNetwork :=
  mkSimplifiedNetwork (net_name n) (withdrawEnable n) (depositEnable n).

(* ===================================================================== *)
(** * Facts about the runtime model *)
(* ===================================================================== *)

(** Closes the comparison of two handler outcomes once both have been
    computed. *)
Ltac same_answers :=
  split; [reflexivity|];
  split; [reflexivity|];
  intros ? ? ? ? [= <- <-] [= <- <-]; split; reflexivity.

Lemma str_eqb_refl (a : jsstring) : str_eqb a a = true.
Proof.
  induction a as [|x a IH]; simpl; [reflexivity|].
  now rewrite N.eqb_refl, IH.
Qed.

Lemma str_eqb_eq (a b : jsstring) : str_eqb a b = true <-> a = b.
Proof.
  split.
  - revert b; induction a as [|x a IH]; intros [|y b]; simpl; try discriminate; auto.
    intros H. apply andb_true_iff in H as [Hx Hr].
    apply N.eqb_eq in Hx. f_equal; auto.
  - intros ->. apply str_eqb_refl.
Qed.

Lemma str_eqb_neq (a b : jsstring) : str_eqb a b = false <-> a <> b.
Proof.
  rewrite <- str_eqb_eq. destruct (str_eqb a b); split; congruence.
Qed.

Lemma str_eqb_sym (a b : jsstring) : str_eqb a b = str_eqb b a.
Proof.
  destruct (str_eqb a b) eqn:E.
  - apply str_eqb_eq in E. subst. symmetry. apply str_eqb_refl.
  - apply str_eqb_neq in E. symmetry. apply str_eqb_neq. congruence.
Qed.

Section DictionaryFacts.
Context {V : Type}.
Implicit Types (o : props V) (k : jsstring) (v : V).

Lemma getOwn_defineOwn_same o k v : getOwn (defineOwn o k v) k = Some v.
Proof.
  induction o as [|[k' v'] o IH]; simpl.
  - now rewrite str_eqb_refl.
  - destruct (str_eqb k' k) eqn:E; simpl; rewrite E; auto.
Qed.

Lemma getOwn_defineOwn_other o k k' v :
  k' <> k -> getOwn (defineOwn o k v) k' = getOwn o k'.
Proof.
  intros Hne. induction o as [|[k0 v0] o IH]; simpl.
  - apply not_eq_sym, str_eqb_neq in Hne. now rewrite Hne.
  - destruct (str_eqb k0 k) eqn:E; simpl.
    + apply str_eqb_eq in E. subst k0.
      apply not_eq_sym, str_eqb_neq in Hne. now rewrite Hne.
    + destruct (str_eqb k0 k'); auto.
Qed.

Lemma defineOwn_same_value o k v : getOwn o k = Some v -> defineOwn o k v = o.
Proof.
  induction o as [|[k' v'] o IH]; simpl; [discriminate|].
  destruct (str_eqb k' k) eqn:E.
  - intros [= ->]. reflexivity.
  - intros H. now rewrite IH.
Qed.

Lemma getOwn_In o k v : getOwn o k = Some v -> In (k, v) o.
Proof.
  induction o as [|[k' v'] o IH]; simpl; [discriminate|].
  destruct (str_eqb k' k) eqn:E.
  - apply str_eqb_eq in E. intros [= ->]. left. now subst.
  - intros H. right. auto.
Qed.

Lemma getOwn_None o k : getOwn o k = None <-> ~ In k (map fst o).
Proof.
  induction o as [|[k' v'] o IH]; simpl.
  - split; auto.
  - destruct (str_eqb k' k) eqn:E.
    + apply str_eqb_eq in E. split; [discriminate|]. intros H. exfalso. auto.
    + apply str_eqb_neq in E. rewrite IH. split.
      * intros H [H1|H1]; auto.
      * intros H H1. apply H. now right.
Qed.

Lemma getOwn_assign_same o k v :
  k <> lit "__proto__" -> getOwn (assign o k v) k = Some v.
Proof.
  intros Hk. unfold assign.
  destruct (getOwn o k); [apply getOwn_defineOwn_same|].
  apply str_eqb_neq in Hk. rewrite Hk. apply getOwn_defineOwn_same.
Qed.

Lemma getOwn_assign_other o k k' v :
  k' <> k -> getOwn (assign o k v) k' = getOwn o k'.
Proof.
  intros Hne. unfold assign.
  destruct (getOwn o k); [now apply getOwn_defineOwn_other|].
  destruct (str_eqb k (lit "__proto__")); [reflexivity|].
  now apply getOwn_defineOwn_other.
Qed.

Lemma getOwn_assign_proto o v :
  getOwn o (lit "__proto__") = None ->
  assign o (lit "__proto__") v = o.
Proof.
  intros H. unfold assign. rewrite H. now rewrite str_eqb_refl.
Qed.
End DictionaryFacts.

Lemma has_In (whitelist : list value) (k : jsstring) :
  has whitelist k = true <-> In (VStr k) whitelist.
Proof.
  unfold has. rewrite existsb_exists. split.
  - intros [v [Hin Hs]]. destruct v; simpl in Hs; try discriminate.
    apply str_eqb_eq in Hs. now subst.
  - intros Hin. exists (VStr k). split; [assumption|]. simpl. apply str_eqb_refl.
Qed.

Lemma hasOtherNetwork_spec (whitelist : list value) (c : Coin) :
  Index.hasOtherNetwork (Set_of whitelist) c = true <-> nonWhitelisted whitelist c.
Proof.
  unfold Index.hasOtherNetwork, nonWhitelisted, Set_of.
  rewrite existsb_exists. split.
  - intros [n [Hin Hn]]. exists n. split; [assumption|].
    rewrite <- has_In. now destruct (has whitelist (network n)).
  - intros [n [Hin Hn]]. exists n. split; [assumption|].
    rewrite <- has_In in Hn. now destruct (has whitelist (network n)).
Qed.

(** Positions kept by [filter]: a strictly increasing list of indices, one
    for each element that passes, matching the result element by element. *)
Lemma filter_positions {A : Type} (f : A -> bool) (l : list A) :
  exists idx : list nat,
    StronglySorted lt idx
    /\ (forall i, In i idx <-> exists x, nth_error l i = Some x /\ f x = true)
    /\ Forall2 (fun i y => nth_error l i = Some y) idx (filter f l).
Proof.
  induction l as [|a l [idx [Hs [Hi Hf]]]].
  - exists []. repeat split; try constructor.
    + intros [].
    + intros [x [H _]]. destruct i; discriminate.
  - assert (Hs' : StronglySorted lt (map S idx)).
    { clear Hi Hf. induction Hs as [|i r Hr IH Hall]; simpl; constructor; auto.
      rewrite Forall_map. eapply Forall_impl; [|exact Hall]. simpl. lia. }
    assert (Hf' : Forall2 (fun i y => nth_error (a :: l) i = Some y)
                    (map S idx) (filter f l)).
    { clear Hi Hs Hs'. induction Hf; simpl; constructor; auto. }
    assert (Hi' : forall i, In i (map S idx) <->
                     exists x, nth_error (a :: l) i = Some x /\ f x = true /\ 0 < i).
    { intros i. rewrite in_map_iff. split.
      - intros [j [<- Hj]]. apply Hi in Hj as [x [Hx Hfx]].
        exists x. simpl. repeat split; auto. lia.
      - intros [x [Hx [Hfx Hpos]]]. destruct i as [|j]; [lia|].
        exists j. split; [reflexivity|]. apply Hi. eauto. }
    simpl. destruct (f a) eqn:Efa.
    + exists (0 :: map S idx). split; [|split].
      * constructor; [assumption|]. rewrite Forall_map.
        apply Forall_forall. intros; lia.
      * intros i. simpl. rewrite Hi'. split.
        -- intros [<-|[x [Hx [Hfx Hpos]]]]; [exists a; auto|]. eauto.
        -- intros [x [Hx Hfx]]. destruct i as [|j]; [now left|right].
           exists x. repeat split; auto. lia.
      * constructor; auto.
    + exists (map S idx). split; [assumption|split; [|assumption]].
      intros i. rewrite Hi'. split.
      * intros [x [Hx [Hfx Hpos]]]. eauto.
      * intros [x [Hx Hfx]]. destruct i as [|j].
        -- simpl in Hx. injection Hx as <-. congruence.
        -- exists x. repeat split; auto. lia.
Qed.

(* ===================================================================== *)
(** * The filter-coins transformation *)
(* ===================================================================== *)

(** C1. For every dataset and whitelist the output of filter-coins is, element
    by element, the simplified form of the coins at a strictly increasing
    list of positions of the dataset, and a position is in that list if and
    only if its coin has a network whose code is not in the whitelist: each
    such coin appears exactly once and in its original relative order. *)
Theorem filter_coins_selects_in_order (dataset : list Coin) (whitelist : list value) :
  exists idx : list nat,
    StronglySorted lt idx
    /\ (forall i, In i idx <->
          exists c, nth_error dataset i = Some c /\ nonWhitelisted whitelist c)
    /\ Forall2
         (fun i sc => exists c, nth_error dataset i = Some c
                                /\ sc = Index.toSimplified c)
         idx (Index.filteredCoins dataset whitelist).
Proof.
  destruct (filter_positions (Index.hasOtherNetwork (Set_of whitelist)) dataset)
    as [idx [Hs [Hi Hf]]].
  exists idx. split; [assumption|split].
  - intros i. rewrite Hi. split; intros [c [Hc Hp]]; exists c; split; auto;
      now apply hasOtherNetwork_spec.
  - unfold Index.filteredCoins. clear Hs Hi.
    induction Hf as [|i c idx' l' Hic _ IH]; simpl; constructor; eauto.
Qed.

(** C8. With an empty whitelist the filter keeps exactly the coins that have
    at least one network, in order, and drops the coins whose network list
    is empty. *)
Theorem empty_whitelist_keeps_coins_with_networks (dataset : list Coin) :
  (forall c, Index.hasOtherNetwork (Set_of []) c = true <-> networkList c <> [])
  /\ Index.filteredCoins dataset [] =
     map Index.toSimplified (filter hasNetworks dataset).
Proof.
  assert (H : forall c, Index.hasOtherNetwork (Set_of []) c = hasNetworks c).
  { intros c. unfold Index.hasOtherNetwork, hasNetworks.
    destruct (networkList c); reflexivity. }
  split.
  - intros c. rewrite H. unfold hasNetworks.
    destruct (networkList c); split; congruence.
  - unfold Index.filteredCoins. f_equal. apply filter_ext. exact H.
Qed.

(** The network map of a coin, key by key: nothing under [__proto__], and
    under any other code the summary of the last network carrying it. *)
Lemma networkMap_lookup (c : Coin) (k : jsstring) :
  getOwn (Index.networkMap c) k =
  if str_eqb k (lit "__proto__") then None
  else option_map summary (lastWithCode k (networkList c)).
Proof.
  unfold Index.networkMap, lastWithCode.
  induction (networkList c) as [|n l IH] using rev_ind.
  - simpl. now destruct (str_eqb k (lit "__proto__")).
  - rewrite fold_left_app, rev_app_distr. simpl.
    fold (summary n).
    destruct (str_eqb (network n) k) eqn:E.
    + apply str_eqb_eq in E. subst k.
      destruct (str_eqb (network n) (lit "__proto__")) eqn:Ep.
      * apply str_eqb_eq in Ep. rewrite Ep in *.
        rewrite getOwn_assign_proto; assumption.
      * apply str_eqb_neq in Ep. simpl. now apply getOwn_assign_same.
    + apply str_eqb_neq in E.
      rewrite getOwn_assign_other by congruence. exact IH.
Qed.

(** C3, at a coin one of whose network codes is [__proto__]: the coin is
    retained and its network list carries that code, yet the network
    mapping of its simplified form has no entry for it; only the other
    code is there. *)
Theorem proto_code_has_no_entry :
  Index.filteredCoins [protoCoin] [] =
    [ mkSimplifiedCoin (lit "X") (lit "X coin")
        [ (lit "ETH", mkSimplifiedNetwork (lit "Ethereum (ERC20)") true true) ] ]
  /\ In (lit "__proto__") (map network (networkList protoCoin))
  /\ getOwn (networks (Index.toSimplified protoCoin)) (lit "__proto__") = None.
Proof.
  split; [vm_compute; reflexivity|]. split; [|vm_compute; reflexivity].
  simpl. left. reflexivity.
Qed.

(* ===================================================================== *)
(** * The handlers *)
(* ===================================================================== *)

Lemma fetchBinanceData_resolves (w : world) (r : ApiResponse) :
  upstream w = Resolves r ->
  Index.fetchBinanceData w =
  (inr r, mkWorld (upstream w) (S (fetchCalls w)) (console w)).
Proof.
  intros H. unfold Index.fetchBinanceData, tryCatch, axios_get. now rewrite H.
Qed.

Lemma fetchBinanceData_rejects (w : world) (e : exn) :
  upstream w = Rejects e ->
  Index.fetchBinanceData w =
  (inl e, mkWorld (upstream w) (S (fetchCalls w))
            (console w ++ [(lit "Error fetching data from Binance:", e)])).
Proof.
  intros H. unfold Index.fetchBinanceData, tryCatch, axios_get. now rewrite H.
Qed.

(** C7. Whenever the filter-coins handler answers 200, the upstream resolved
    with some dataset, the body has a [data] array, [total] is the number
    of its elements and [totalCoins] is the size of the whole dataset. *)
Theorem filter_coins_success_counts
  (req : request) (w w' : world) (r : response) :
  Index.filterCoinsHandler req w = (inr r, w') ->
  status r = 200 ->
  exists dataset items,
    upstream w = Resolves (mkApiResponse dataset)
    /\ member (payload r) (lit "data") = Some (VArr items)
    /\ member (payload r) (lit "total") = Some (num (length items))
    /\ member (payload r) (lit "totalCoins") = Some (num (length dataset)).
Proof.
  unfold Index.filterCoinsHandler, Index.filterCoinsTry, tryCatch, bind, destructure.
  destruct (getV (body req) (lit "networks")) as [v|]; simpl.
  - destruct v; simpl;
      try (intros [= <- <-]; simpl; discriminate).
    destruct (upstream w) as [e|[dataset]] eqn:Eu.
    + rewrite (fetchBinanceData_rejects w e Eu). simpl.
      intros [= <- <-]; simpl; discriminate.
    + rewrite (fetchBinanceData_resolves w _ Eu). simpl.
      intros [= <- <-] _. exists dataset.
      exists (map jsonOfSimplifiedCoin (Index.filteredCoins dataset elems)).
      rewrite length_map. repeat split.
  - intros [= <- <-]; simpl; discriminate.
Qed.

Lemma filter_coins_success_counts_witness :
  exists dataset items,
    upstream (idleWorld (Resolves (mkApiResponse scenarioDataset)))
      = Resolves (mkApiResponse dataset)
    /\ member (payload scenarioResponse) (lit "data") = Some (VArr items)
    /\ member (payload scenarioResponse) (lit "total") = Some (num (length items))
    /\ member (payload scenarioResponse) (lit "totalCoins")
       = Some (num (length dataset)).
Proof.
  apply (filter_coins_success_counts
           (whitelistRequest ["ETH"%string])
           (idleWorld (Resolves (mkApiResponse scenarioDataset)))
           (mkWorld (Resolves (mkApiResponse scenarioDataset)) 1 [])
           scenarioResponse).
  - vm_compute. reflexivity.
  - reflexivity.
Defined.

(** C5. When the [networks] value of the request is not an array, the
    filter-coins handler answers 400 with the fixed message and leaves the
    world as it found it: no upstream call is issued, whatever the upstream
    would have answered. *)
Theorem non_array_networks_rejected_before_fetch
  (req : request) (w : world) (v : value) :
  getV (body req) (lit "networks") = Some v ->
  isArray v = false ->
  Index.filterCoinsHandler req w =
    (inr (mkResponse 400
            (VObj [ (lit "success", VBool false);
                    (lit "message", VStr (lit "Networks must be an array")) ])),
     w)
  /\ fetchCalls (snd (Index.filterCoinsHandler req w)) = fetchCalls w.
Proof.
  intros Hv Harr.
  assert (H : Index.filterCoinsHandler req w =
              (inr (mkResponse 400 Index.badRequest), w)).
  { unfold Index.filterCoinsHandler, Index.filterCoinsTry, tryCatch, bind, destructure.
    rewrite Hv. destruct v; simpl in *; try reflexivity. discriminate. }
  rewrite H. split; reflexivity.
Qed.

Lemma non_array_networks_rejected_before_fetch_witness :
  Index.filterCoinsHandler
    (mkRequest (VObj [ (lit "networks", VStr (lit "ETH")) ]))
    (idleWorld (Resolves (mkApiResponse scenarioDataset)))
  = (inr (mkResponse 400
            (VObj [ (lit "success", VBool false);
                    (lit "message", VStr (lit "Networks must be an array")) ])),
     idleWorld (Resolves (mkApiResponse scenarioDataset)))
  /\ fetchCalls
       (snd (Index.filterCoinsHandler
               (mkRequest (VObj [ (lit "networks", VStr (lit "ETH")) ]))
               (idleWorld (Resolves (mkApiResponse scenarioDataset)))))
     = fetchCalls (idleWorld (Resolves (mkApiResponse scenarioDataset))).
Proof.
  apply (non_array_networks_rejected_before_fetch
           (mkRequest (VObj [ (lit "networks", VStr (lit "ETH")) ]))
           (idleWorld (Resolves (mkApiResponse scenarioDataset)))
           (VStr (lit "ETH"))).
  - vm_compute. reflexivity.
  - reflexivity.
Defined.

(** A rejected upstream call is a throw of the [try] block, on the networks
    endpoint always and on filter-coins once the whitelist passed the
    array check. *)
Lemma upstream_rejection_fails
  (cmp : jsstring -> jsstring -> Z) (ep : endpoint)
  (req : request) (w : world) (e : exn) :
  upstream w = Rejects e ->
  (ep = FilterCoins -> exists elems, getV (body req) (lit "networks") = Some (VArr elems)) ->
  failsWith cmp ep req w e.
Proof.
  intros Hu Hreq. unfold failsWith. destruct ep; simpl.
  - destruct (Hreq eq_refl) as [elems He].
    unfold Index.filterCoinsTry, bind, destructure. rewrite He. simpl.
    rewrite (fetchBinanceData_rejects w e Hu). eauto.
  - unfold Index.networksTry, bind.
    rewrite (fetchBinanceData_rejects w e Hu). eauto.
Qed.

(** C6. On either endpoint, when anything in the [try] block throws (the
    upstream call or a later step), the handler answers 500 with exactly
    the fixed body: [success: false] and the fixed message, no [data]
    field, nothing of the error.  The error goes to the console only. *)
Theorem failure_answers_generic_500
  (cmp : jsstring -> jsstring -> Z) (ep : endpoint)
  (req : request) (w : world) (e : exn) :
  failsWith cmp ep req w e ->
  exists w',
    handler cmp ep req w =
      (inr (mkResponse 500
              (VObj [ (lit "success", VBool false);
                      (lit "message", VStr (lit "Internal server error")) ])),
       w')
    /\ member Index.serverError (lit "data") = None
    /\ In (lit "Error processing request:", e) (console w').
Proof.
  intros [w1 Hthrow].
  exists (mkWorld (upstream w1) (fetchCalls w1)
            (console w1 ++ [(lit "Error processing request:", e)])).
  split; [|split].
  - destruct ep; simpl in *;
      unfold Index.filterCoinsHandler, Index.networksHandler, tryCatch;
      rewrite Hthrow; reflexivity.
  - reflexivity.
  - simpl. apply in_or_app. right. now left.
Qed.

Lemma failure_answers_generic_500_witness :
  exists w',
    handler codeUnitCompare Networks (mkRequest VUndefined)
      (idleWorld (Rejects (AxiosError (lit "connect ETIMEDOUT")))) =
      (inr (mkResponse 500
              (VObj [ (lit "success", VBool false);
                      (lit "message", VStr (lit "Internal server error")) ])),
       w')
    /\ member Index.serverError (lit "data") = None
    /\ In (lit "Error processing request:", AxiosError (lit "connect ETIMEDOUT"))
         (console w').
Proof.
  apply (failure_answers_generic_500 codeUnitCompare Networks
           (mkRequest VUndefined)
           (idleWorld (Rejects (AxiosError (lit "connect ETIMEDOUT"))))
           (AxiosError (lit "connect ETIMEDOUT"))).
  eexists. vm_compute. reflexivity.
Defined.

(* ===================================================================== *)
(** * The two versions of the filter-coins handler *)
(* ===================================================================== *)

(** C10. The handler of [part_000] and the handler of [index.ts] compute the
    same filtered sequence for every dataset and whitelist, and for every
    request and world they leave the same world and answer with the same
    status and the same body but for the [totalCoins] field, which only
    [index.ts] sends; in particular [total] and [data] agree. *)
Theorem filter_coins_versions_agree
  (dataset : list Coin) (whitelist : list value) (req : request) (w : world) :
  Part000.filteredCoins dataset whitelist = Index.filteredCoins dataset whitelist
  /\ Part000.filterCoinsHandler req w
     = mapPayload (without (lit "totalCoins")) (Index.filterCoinsHandler req w)
  /\ member_data (fst (Part000.filterCoinsHandler req w))
     = member_data (fst (Index.filterCoinsHandler req w))
  /\ (forall r0 r1 w0 w1,
        Part000.filterCoinsHandler req w = (inr r0, w0) ->
        Index.filterCoinsHandler req w = (inr r1, w1) ->
        member (payload r0) (lit "total") = member (payload r1) (lit "total")
        /\ member (payload r0) (lit "totalCoins") = None).
Proof.
  assert (Hf : forall d wl, Part000.filteredCoins d wl = Index.filteredCoins d wl)
    by reflexivity.
  split; [apply Hf|].
  unfold Part000.filterCoinsHandler, Index.filterCoinsHandler,
    Index.filterCoinsTry, Index.onError, tryCatch, bind, destructure.
  change Part000.fetchBinanceData with Index.fetchBinanceData.
  destruct (getV (body req) (lit "networks")) as [v|]; simpl.
  - destruct v; simpl; try solve [same_answers].
    destruct (upstream w) as [e|[d]] eqn:Eu.
    + rewrite (fetchBinanceData_rejects w e Eu). simpl. same_answers.
    + rewrite (fetchBinanceData_resolves w _ Eu). simpl. rewrite Hf. same_answers.
  - same_answers.
Qed.

(* ===================================================================== *)
(** * The network index *)
(* ===================================================================== *)

Lemma record_recorded (m : NetworkInfo) (n : Network) (s : jsstring) :
  getOwn m (network n) = Some s ->
  Index.record m n =
  if length s <? length (net_name n)
  then defineOwn m (network n) (net_name n)
  else m.
Proof.
  intros H. unfold Index.record, Index.shouldRecord, get, assign. rewrite H.
  destruct (length s <? length (net_name n)) eqn:E.
  - now rewrite orb_true_r.
  - rewrite orb_false_r. destruct s as [|x s]; [|reflexivity].
    apply Nat.ltb_ge in E. simpl in E.
    destruct (net_name n) as [|y t]; [|simpl in E; lia].
    now apply defineOwn_same_value.
Qed.

Lemma record_other (m : NetworkInfo) (n : Network) (k : jsstring) :
  k <> network n -> getOwn (Index.record m n) k = getOwn m k.
Proof.
  intros Hk. unfold Index.record.
  destruct (Index.shouldRecord m n); [|reflexivity].
  now apply getOwn_assign_other.
Qed.

(** A recorded name stays as long as no strictly longer name is seen for its
    code. *)
Lemma recorded_name_survives (later : list Network) (m : NetworkInfo)
  (k s : jsstring) :
  getOwn m k = Some s ->
  Forall (fun n => network n = k -> length (net_name n) <= length s) later ->
  getOwn (fold_left Index.record later m) k = Some s.
Proof.
  revert m. induction later as [|n later IH]; intros m Hm Hall; simpl; [assumption|].
  inversion Hall as [|? ? Hn Hrest]; subst. apply IH; [|assumption].
  destruct (str_eqb (network n) k) eqn:E.
  - apply str_eqb_eq in E. subst k. rewrite (record_recorded m n s Hm).
    specialize (Hn eq_refl). apply Nat.ltb_ge in Hn. now rewrite Hn.
  - apply str_eqb_neq in E. rewrite record_other by congruence. assumption.
Qed.

(** C4. When a name [s] is already recorded for the code of a newly seen
    network, the update leaves [s] in place unless the new name is strictly
    longer, in which case the new name replaces it; a name that is not
    strictly longer, an equally long one included, changes nothing; other
    codes are untouched; and so a recorded name outlives every later name
    of its code that is no longer than it: of equally long names the one
    seen first is kept. *)
Theorem recorded_name_kept_unless_longer
  (m : NetworkInfo) (n : Network) (s : jsstring) :
  getOwn m (network n) = Some s ->
  getOwn (Index.record m n) (network n)
    = Some (if length s <? length (net_name n) then net_name n else s)
  /\ (length (net_name n) <= length s -> Index.record m n = m)
  /\ (forall k, k <> network n -> getOwn (Index.record m n) k = getOwn m k)
  /\ (forall later,
        Forall (fun n' => network n' = network n ->
                          length (net_name n') <= length s) later ->
        getOwn (fold_left Index.record later m) (network n) = Some s).
Proof.
  intros H. rewrite (record_recorded m n s H). repeat split.
  - destruct (length s <? length (net_name n)); [apply getOwn_defineOwn_same|assumption].
  - intros Hle. apply Nat.ltb_ge in Hle. now rewrite Hle.
  - intros k Hk. rewrite <- (record_recorded m n s H). now apply record_other.
  - intros later Hall. now apply recorded_name_survives.
Qed.

Lemma recorded_name_kept_unless_longer_witness :
  getOwn (Index.record [(lit "BSC", lit "BSC")]
            (net "BSC" "BNB Smart Chain (BEP20)")) (lit "BSC")
  = Some (lit "BNB Smart Chain (BEP20)").
Proof.
  apply (recorded_name_kept_unless_longer
           [(lit "BSC", lit "BSC")] (net "BSC" "BNB Smart Chain (BEP20)")
           (lit "BSC")).
  reflexivity.
Defined.

(** C2, at two datasets.  A network code [__proto__] appears in the first
    and is not a key of its index.  The second has the codes [10] and [9]:
    whatever the comparator, the keys of its index come out as [9], [10],
    which is not ascending for a comparator that puts [9] after [10], as
    a collation that reads numerals character by character does. *)
Theorem network_index_drops_proto_and_reorders_numerals
  (cmp : jsstring -> jsstring -> Z) :
  (In (lit "__proto__") (codes [protoCoin])
   /\ ownKeys (Index.sortedNetworks cmp (Index.networksMap [protoCoin]))
      = [lit "ETH"])
  /\ (codes [numericCoin] = [lit "10"; lit "9"]
      /\ ownKeys (Index.sortedNetworks cmp (Index.networksMap [numericCoin]))
         = [lit "9"; lit "10"])
  /\ ((cmp (lit "9") (lit "10") > 0)%Z ->
      ~ ascending cmp
          (ownKeys (Index.sortedNetworks cmp (Index.networksMap [numericCoin])))).
Proof.
  assert (Hnum : ownKeys (Index.sortedNetworks cmp (Index.networksMap [numericCoin]))
                 = [lit "9"; lit "10"]).
  { unfold Index.sortedNetworks.
    replace (ownEntries (Index.networksMap [numericCoin]))
      with [(lit "9", lit "Nine"); (lit "10", lit "Ten")] by (vm_compute; reflexivity).
    simpl sort. destruct (cmp (lit "9") (lit "10") <=? 0)%Z; vm_compute; reflexivity. }
  split; [|split].
  - split; [simpl; left; reflexivity|].
    unfold Index.sortedNetworks.
    replace (ownEntries (Index.networksMap [protoCoin]))
      with [(lit "ETH", lit "Ethereum (ERC20)")] by (vm_compute; reflexivity).
    vm_compute. reflexivity.
  - split; [reflexivity|exact Hnum].
  - intros Hgt Hasc. rewrite Hnum in Hasc. unfold ascending in Hasc.
    inversion Hasc as [|? ? _ Hall]; subst.
    inversion Hall as [|? ? Hle _]; subst. lia.
Qed.

Lemma network_index_drops_proto_and_reorders_numerals_witness :
  ~ ascending codeUnitCompare
      (ownKeys (Index.sortedNetworks codeUnitCompare
                  (Index.networksMap [numericCoin]))).
Proof.
  apply (network_index_drops_proto_and_reorders_numerals codeUnitCompare).
  vm_compute. reflexivity.
Defined.

(** ** The index of a dataset with plain codes

    What the networks handler does guarantee: when no code of the dataset
    is an array index or names a property of [Object.prototype], the index
    has exactly the codes of the dataset as keys, each once, each with the
    first of its longest names, in ascending order of the comparator. *)

Section SortFacts.
Context {A : Type} (cmp : A -> A -> Z).
Hypothesis cmp_total : forall a b, (cmp a b <= 0 \/ cmp b a <= 0)%Z.
Hypothesis cmp_trans :
  forall a b c, (cmp a b <= 0 -> cmp b c <= 0 -> cmp a c <= 0)%Z.

Lemma insertSorted_perm (x : A) (l : list A) :
  Permutation (insertSorted cmp x l) (x :: l).
Proof.
  induction l as [|y l IH]; simpl; [reflexivity|].
  destruct (cmp x y <=? 0)%Z; [reflexivity|].
  rewrite IH. apply perm_swap.
Qed.

Lemma sort_perm (l : list A) : Permutation (sort cmp l) l.
Proof.
  induction l as [|x l IH]; simpl; [reflexivity|].
  rewrite insertSorted_perm. now constructor.
Qed.

Lemma insertSorted_sorted (x : A) (l : list A) :
  StronglySorted (fun a b => (cmp a b <= 0)%Z) l ->
  StronglySorted (fun a b => (cmp a b <= 0)%Z) (insertSorted cmp x l).
Proof.
  induction 1 as [|y l Hl IH Hy]; simpl.
  - constructor; constructor.
  - destruct (cmp x y <=? 0)%Z eqn:E.
    + apply Z.leb_le in E. constructor.
      * now constructor.
      * constructor; [assumption|].
        eapply Forall_impl; [|exact Hy]. intros z Hz. now apply (cmp_trans x y z).
    + apply Z.leb_gt in E. constructor; [assumption|].
      apply (Permutation_Forall (Permutation_sym (insertSorted_perm x l))).
      constructor; [|assumption].
      destruct (cmp_total x y); [lia|assumption].
Qed.

Lemma sort_sorted (l : list A) :
  StronglySorted (fun a b => (cmp a b <= 0)%Z) (sort cmp l).
Proof.
  induction l as [|x l IH]; simpl; [constructor|].
  now apply insertSorted_sorted.
Qed.
End SortFacts.

Section PlainDictionaryFacts.
Context {V : Type}.
Implicit Types (o : props V) (k : jsstring) (v : V).

Lemma defineOwn_fresh o k v :
  getOwn o k = None -> defineOwn o k v = o ++ [(k, v)].
Proof.
  induction o as [|[k' v'] o IH]; simpl; [reflexivity|].
  destruct (str_eqb k' k); [discriminate|]. intros H. now rewrite IH.
Qed.

Lemma defineOwn_keys_present o k v :
  getOwn o k <> None -> map fst (defineOwn o k v) = map fst o.
Proof.
  induction o as [|[k' v'] o IH]; simpl; [congruence|].
  destruct (str_eqb k' k); simpl; [reflexivity|].
  intros H. now rewrite IH.
Qed.

Lemma ownEntries_without_index o :
  Forall (fun k => arrayIndex k = None) (map fst o) -> ownEntries o = o.
Proof.
  intros H. unfold ownEntries.
  assert (Hi : indexed o = []).
  { unfold indexed. induction o as [|[k v] o IH]; simpl; [reflexivity|].
    inversion H as [|? ? Hk Ho]; subst. simpl in Hk. rewrite Hk. simpl. auto. }
  rewrite Hi. simpl.
  induction o as [|[k v] o IH]; simpl; [reflexivity|].
  inversion H as [|? ? Hk Ho]; subst. simpl in Hk.
  unfold isIndexKey at 1. rewrite Hk. simpl. f_equal. apply IH; [assumption|].
  unfold indexed in *. simpl in Hi. rewrite Hk in Hi. exact Hi.
Qed.

(** Rebuilding an object entry by entry, as the [reduce] over the sorted
    entries does, gives the entries back when the keys are distinct and
    none is an array index. *)
Lemma rebuild_without_index (l acc : props V) :
  NoDup (map fst (acc ++ l)) ->
  Forall (fun k => arrayIndex k = None) (map fst (acc ++ l)) ->
  fold_left (fun obj e => spreadWith obj (fst e) (snd e)) l acc = acc ++ l.
Proof.
  revert acc. induction l as [|[k v] l IH]; intros acc Hnd Hidx; simpl.
  - now rewrite app_nil_r.
  - assert (Hacc : Forall (fun k => arrayIndex k = None) (map fst acc)).
    { rewrite map_app in Hidx. now apply Forall_app in Hidx as [Ha _]. }
    assert (Hk : getOwn acc k = None).
    { apply getOwn_None. rewrite map_app in Hnd. simpl in Hnd.
      apply NoDup_remove_2 in Hnd. intros Hin. apply Hnd.
      apply in_or_app. now left. }
    unfold spreadWith. rewrite (ownEntries_without_index acc Hacc).
    rewrite (defineOwn_fresh acc k v Hk).
    rewrite IH; rewrite <- app_assoc; simpl; auto.
Qed.
End PlainDictionaryFacts.

Lemma In_getOwn {V : Type} (o : props V) (k : jsstring) (v : V) :
  NoDup (map fst o) -> In (k, v) o -> getOwn o k = Some v.
Proof.
  induction o as [|[k' v'] o IH]; simpl; [intros _ []|].
  intros Hnd [Heq|Hin].
  - injection Heq as -> ->. now rewrite str_eqb_refl.
  - inversion Hnd as [|? ? Hk Ho]; subst.
    destruct (str_eqb k' k) eqn:E; [|auto].
    apply str_eqb_eq in E. subst k'. exfalso. apply Hk.
    change k with (fst (k, v)). now apply in_map.
Qed.

Lemma plainKey_not_proto (k : jsstring) :
  plainKey k -> str_eqb k (lit "__proto__") = false.
Proof.
  intros [_ H]. apply str_eqb_neq. intros ->. vm_compute in H. discriminate.
Qed.

Lemma record_unrecorded_plain (m : NetworkInfo) (n : Network) :
  getOwn m (network n) = None -> plainKey (network n) ->
  Index.record m n = defineOwn m (network n) (net_name n).
Proof.
  intros Hm Hp. unfold Index.record, Index.shouldRecord, get, assign.
  rewrite Hm, (plainKey_not_proto _ Hp). destruct Hp as [_ Ho]. now rewrite Ho.
Qed.

Lemma firstLongest_bound (k s : jsstring) (ns : list Network) :
  firstLongest k s ns ->
  Forall (fun n' => network n' = k -> length (net_name n') <= length s) ns.
Proof.
  intros (before & n & after & -> & Hk & Hs & Hb & Ha).
  apply Forall_app. split.
  - eapply Forall_impl; [|exact Hb]. simpl. intros a H Ha'. specialize (H Ha'). lia.
  - constructor; [|assumption]. intros _. subst s. lia.
Qed.

Lemma firstLongest_later (k s : jsstring) (ns : list Network) (x : Network) :
  firstLongest k s ns ->
  (network x = k -> length (net_name x) <= length s) ->
  firstLongest k s (ns ++ [x]).
Proof.
  intros (before & n & after & -> & Hk & Hs & Hb & Ha) Hx.
  exists before, n, (after ++ [x]). rewrite <- app_assoc. simpl.
  repeat split; auto. apply Forall_app. split; [assumption|]. now constructor.
Qed.

Lemma firstLongest_new (ns : list Network) (x : Network) :
  Forall (fun n' => network n' = network x ->
                    length (net_name n') < length (net_name x)) ns ->
  firstLongest (network x) (net_name x) (ns ++ [x]).
Proof.
  intros H. exists ns, x, []. repeat split; auto.
Qed.

(** The table after any run of updates over networks with plain codes. *)
Lemma recorded_invariant (ns : list Network) :
  Forall plainKey (map network ns) ->
  NoDup (map fst (fold_left Index.record ns []))
  /\ (forall k, In k (map fst (fold_left Index.record ns [])) <->
                In k (map network ns))
  /\ (forall k s, getOwn (fold_left Index.record ns []) k = Some s ->
                  firstLongest k s ns).
Proof.
  induction ns as [|x ns IH] using rev_ind; intros Hplain.
  - simpl. repeat split; try constructor; try tauto. discriminate.
  - rewrite map_app in Hplain. apply Forall_app in Hplain as [Hns Hx].
    inversion Hx as [|? ? Hpx _]; subst.
    destruct (IH Hns) as (Hnd & Hkeys & Hval). clear IH.
    rewrite fold_left_app. simpl.
    set (m := fold_left Index.record ns []) in *.
    assert (Hin_app : forall k, In k (map network (ns ++ [x])) <->
                                In k (map network ns) \/ k = network x).
    { intros k. rewrite map_app, in_app_iff. simpl. intuition. }
    destruct (getOwn m (network x)) as [s0|] eqn:Em.
    + (* a name is already recorded for the code *)
      assert (Hkeys' : map fst (Index.record m x) = map fst m).
      { rewrite (record_recorded m x s0 Em).
        destruct (length s0 <? length (net_name x)); [|reflexivity].
        apply defineOwn_keys_present. congruence. }
      rewrite Hkeys'. split; [assumption|split].
      * intros k. rewrite Hin_app, Hkeys. split; [tauto|].
        intros [H| ->]; [assumption|]. apply Hkeys.
        apply getOwn_In in Em.
        change (network x) with (fst (network x, s0)). now apply in_map.
      * intros k s Hs.
        destruct (str_eqb k (network x)) eqn:E.
        -- apply str_eqb_eq in E. subst k.
           rewrite (record_recorded m x s0 Em) in Hs.
           pose proof (firstLongest_bound _ _ _ (Hval _ _ Em)) as Hb.
           destruct (length s0 <? length (net_name x)) eqn:El.
           ++ rewrite getOwn_defineOwn_same in Hs. injection Hs as <-.
              apply Nat.ltb_lt in El. apply firstLongest_new.
              eapply Forall_impl; [|exact Hb]. simpl.
              intros a H Ha. specialize (H Ha). lia.
           ++ apply Nat.ltb_ge in El. rewrite Em in Hs. injection Hs as <-.
              apply firstLongest_later; auto.
        -- apply str_eqb_neq in E. rewrite record_other in Hs by assumption.
           apply firstLongest_later; auto. congruence.
    + (* the code is new *)
      rewrite (record_unrecorded_plain m x Em Hpx).
      rewrite (defineOwn_fresh m _ _ Em).
      assert (Hnew : ~ In (network x) (map fst m)) by now apply getOwn_None.
      split; [|split].
      * rewrite map_app. simpl.
        apply (Permutation_NoDup (Permutation_cons_append _ _)).
        now constructor.
      * intros k. rewrite Hin_app, map_app, in_app_iff, Hkeys. simpl.
        intuition congruence.
      * intros k s Hs. rewrite <- (defineOwn_fresh m _ _ Em) in Hs.
        destruct (str_eqb k (network x)) eqn:E.
        -- apply str_eqb_eq in E. subst k.
           rewrite getOwn_defineOwn_same in Hs. injection Hs as <-.
           apply firstLongest_new. apply Forall_forall. intros a Ha Hcode.
           exfalso. apply Hnew. apply Hkeys. rewrite <- Hcode. now apply in_map.
        -- apply str_eqb_neq in E.
           rewrite getOwn_defineOwn_other in Hs by assumption.
           apply firstLongest_later; auto. congruence.
Qed.

Lemma networksMap_flat (dataset : list Coin) :
  Index.networksMap dataset = fold_left Index.record (allNetworks dataset) [].
Proof.
  unfold Index.networksMap, allNetworks. generalize (@nil (jsstring * jsstring)).
  induction dataset as [|c d IH]; intros m; simpl; [reflexivity|].
  now rewrite fold_left_app, IH.
Qed.

Lemma codes_allNetworks (dataset : list Coin) :
  codes dataset = map network (allNetworks dataset).
Proof.
  unfold codes, allNetworks.
  induction dataset as [|c d IH]; simpl; [reflexivity|].
  now rewrite map_app, IH.
Qed.

Lemma StronglySorted_map_fst {B : Type} (R : jsstring -> jsstring -> Prop)
  (l : list (jsstring * B)) :
  StronglySorted (fun a b => R (fst a) (fst b)) l -> StronglySorted R (map fst l).
Proof.
  induction 1 as [|a l Hl IH Ha]; simpl; constructor; auto.
  rewrite Forall_map. exact Ha.
Qed.

(** X22. The index of a dataset with plain codes, under a consistent
    comparator: the keys are pairwise distinct and are exactly the codes of
    the dataset, every entry carries the first of the longest names of its
    code, and the keys are in ascending order of the comparator. *)
Theorem network_index_of_plain_codes
  (cmp : jsstring -> jsstring -> Z) (dataset : list Coin) :
  (forall a b, cmp a b <= 0 \/ cmp b a <= 0)%Z ->
  (forall a b c, cmp a b <= 0 -> cmp b c <= 0 -> cmp a c <= 0)%Z ->
  Forall plainKey (codes dataset) ->
  NoDup (ownKeys (Index.sortedNetworks cmp (Index.networksMap dataset)))
  /\ (forall k, In k (ownKeys (Index.sortedNetworks cmp (Index.networksMap dataset)))
                <-> In k (codes dataset))
  /\ (forall k s,
        In (k, s) (ownEntries (Index.sortedNetworks cmp (Index.networksMap dataset)))
        -> firstLongest k s (allNetworks dataset))
  /\ ascending cmp (ownKeys (Index.sortedNetworks cmp (Index.networksMap dataset))).
Proof.
  intros Htotal Htrans Hplain.
  rewrite codes_allNetworks in *. rewrite networksMap_flat.
  destruct (recorded_invariant (allNetworks dataset) Hplain) as (Hnd & Hkeys & Hval).
  set (m := fold_left Index.record (allNetworks dataset) []) in *.
  set (byKey := fun a b : jsstring * jsstring => cmp (fst a) (fst b)).
  assert (Hidx : Forall (fun k => arrayIndex k = None) (map fst m)).
  { apply Forall_forall. intros k Hk. apply Hkeys in Hk.
    rewrite Forall_forall in Hplain. now destruct (Hplain k Hk). }
  assert (Hperm : Permutation (sort byKey m) m) by apply sort_perm.
  assert (Hpk : Permutation (map fst (sort byKey m)) (map fst m))
    by now apply Permutation_map.
  assert (Hout : Index.sortedNetworks cmp m = sort byKey m).
  { unfold Index.sortedNetworks. rewrite (ownEntries_without_index m Hidx).
    fold byKey. apply (rebuild_without_index (sort byKey m) []); simpl.
    - apply (Permutation_NoDup (Permutation_sym Hpk) Hnd).
    - apply (Permutation_Forall (Permutation_sym Hpk) Hidx). }
  assert (Hent : ownEntries (Index.sortedNetworks cmp m) = sort byKey m).
  { rewrite Hout. apply ownEntries_without_index.
    apply (Permutation_Forall (Permutation_sym Hpk) Hidx). }
  unfold ownKeys. rewrite Hent. split; [|split; [|split]].
  - apply (Permutation_NoDup (Permutation_sym Hpk) Hnd).
  - intros k. rewrite <- Hkeys. split; apply Permutation_in;
      [exact Hpk | exact (Permutation_sym Hpk)].
  - intros k s Hin. apply Hval. apply In_getOwn; [assumption|].
    now apply (Permutation_in _ Hperm).
  - unfold ascending. apply StronglySorted_map_fst.
    apply (sort_sorted byKey).
    + intros a b. apply Htotal.
    + intros a b c. apply Htrans.
Qed.

(** Code-unit order is a consistent comparator, so the hypotheses of the
    theorem above can be met. *)
Lemma codeUnitCompare_total (a b : jsstring) :
  (codeUnitCompare a b <= 0 \/ codeUnitCompare b a <= 0)%Z.
Proof.
  revert b. induction a as [|x a IH]; intros [|y b]; simpl; try lia.
  rewrite (N.compare_antisym x y).
  destruct (N.compare x y); simpl; try lia. apply IH.
Qed.

Lemma codeUnitCompare_trans (a b c : jsstring) :
  (codeUnitCompare a b <= 0 -> codeUnitCompare b c <= 0 ->
   codeUnitCompare a c <= 0)%Z.
Proof.
  revert b c. induction a as [|x a IH]; intros [|y b] [|z c]; simpl; try lia.
  destruct (N.compare_spec x y) as [->|Hxy|Hxy]; try lia.
  - destruct (N.compare_spec y z) as [->|Hyz|Hyz]; try lia. apply IH.
  - destruct (N.compare_spec y z) as [->|Hyz|Hyz]; try lia.
    + destruct (N.compare_spec x z); lia.
    + destruct (N.compare_spec x z); lia.
Qed.

Example scenario_index_is_sorted :
  ascending codeUnitCompare
    (ownKeys (Index.sortedNetworks codeUnitCompare
                (Index.networksMap scenarioDataset))).
Proof.
  apply (network_index_of_plain_codes codeUnitCompare scenarioDataset).
  - intros a b. apply codeUnitCompare_total.
  - intros a b c. apply codeUnitCompare_trans.
  - repeat constructor.
Defined.

(** The index scenario of the specification: the longer of the two names of
    [BSC] wins, whichever coin comes first. *)
Example longer_name_wins_in_either_order :
  Index.sortedNetworks codeUnitCompare
    (Index.networksMap
       [ mkCoin (lit "A") (lit "A coin") [ net "BSC" "BNB Smart Chain (BEP20)" ];
         mkCoin (lit "B") (lit "B coin") [ net "BSC" "BSC" ] ])
  = [ (lit "BSC", lit "BNB Smart Chain (BEP20)") ]
  /\ Index.sortedNetworks codeUnitCompare
       (Index.networksMap
          [ mkCoin (lit "B") (lit "B coin") [ net "BSC" "BSC" ];
            mkCoin (lit "A") (lit "A coin") [ net "BSC" "BNB Smart Chain (BEP20)" ] ])
     = [ (lit "BSC", lit "BNB Smart Chain (BEP20)") ].
Proof.
  split; vm_compute; reflexivity.
Qed.

(** A code naming a function of [Object.prototype] is recorded only with a
    name longer than the function's arity: [constructor] with a
    one-character name leaves the table empty. *)
Example constructor_code_with_short_name_is_skipped :
  Index.networksMap [ mkCoin (lit "Z") (lit "Z coin") [ net "constructor" "c" ] ] = []
  /\ Index.networksMap [ mkCoin (lit "Z") (lit "Z coin") [ net "constructor" "cc" ] ]
     = [ (lit "constructor", lit "cc") ].
Proof.
  split; vm_compute; reflexivity.
Qed.

(* ===================================================================== *)
(** * Further properties of the fetcher and the handlers *)
(* ===================================================================== *)

(** X1. [fetchBinanceData] issues exactly one upstream call.  When the call
    resolves it returns the upstream data unchanged and prints nothing;
    when it rejects it prints the error once and rethrows the same
    error. *)
Theorem fetch_calls_upstream_once (w : world) :
  fetchCalls (snd (Index.fetchBinanceData w)) = S (fetchCalls w)
  /\ match upstream w with
     | Resolves r =>
         fst (Index.fetchBinanceData w) = inr r
         /\ console (snd (Index.fetchBinanceData w)) = console w
     | Rejects e =>
         fst (Index.fetchBinanceData w) = inl e
         /\ console (snd (Index.fetchBinanceData w))
            = console w ++ [(lit "Error fetching data from Binance:", e)]
     end.
Proof.
  destruct (upstream w) as [e|r] eqn:Eu.
  - rewrite (fetchBinanceData_rejects w e Eu). simpl. auto.
  - rewrite (fetchBinanceData_resolves w r Eu). simpl. auto.
Qed.

Lemma filterCoinsHandler_not_array (req : request) (w : world) (v : value) :
  getV (body req) (lit "networks") = Some v -> isArray v = false ->
  Index.filterCoinsHandler req w = (inr (mkResponse 400 Index.badRequest), w).
Proof.
  intros Hv Ha.
  unfold Index.filterCoinsHandler, Index.filterCoinsTry, tryCatch, bind, destructure.
  rewrite Hv. destruct v; simpl in *; try reflexivity. discriminate.
Qed.

Lemma filterCoinsHandler_no_body (req : request) (w : world) :
  getV (body req) (lit "networks") = None ->
  Index.filterCoinsHandler req w =
  (inr (mkResponse 500 Index.serverError),
   mkWorld (upstream w) (fetchCalls w)
     (console w ++ [(lit "Error processing request:",
                     TypeError (lit "Cannot destructure property of req.body"))])).
Proof.
  intros Hv.
  unfold Index.filterCoinsHandler, Index.filterCoinsTry, tryCatch, bind, destructure.
  rewrite Hv. reflexivity.
Qed.

Lemma filterCoinsHandler_rejected (req : request) (w : world)
  (elems : list value) (e : exn) :
  getV (body req) (lit "networks") = Some (VArr elems) -> upstream w = Rejects e ->
  Index.filterCoinsHandler req w =
  (inr (mkResponse 500 Index.serverError),
   mkWorld (upstream w) (S (fetchCalls w))
     (console w ++ [(lit "Error fetching data from Binance:", e);
                    (lit "Error processing request:", e)])).
Proof.
  intros Hv Hu.
  unfold Index.filterCoinsHandler, Index.filterCoinsTry, tryCatch, bind, destructure.
  rewrite Hv. simpl. rewrite (fetchBinanceData_rejects w e Hu). simpl.
  unfold Index.onError, bind, console_error, json, ret. simpl.
  now rewrite <- app_assoc.
Qed.

Lemma filterCoinsHandler_resolved (req : request) (w : world)
  (elems : list value) (r : ApiResponse) :
  getV (body req) (lit "networks") = Some (VArr elems) -> upstream w = Resolves r ->
  Index.filterCoinsHandler req w =
  (inr (mkResponse 200
          (VObj [ (lit "success", VBool true);
                  (lit "total", num (length (Index.filteredCoins (data r) elems)));
                  (lit "totalCoins", num (length (data r)));
                  (lit "data",
                   VArr (map jsonOfSimplifiedCoin
                           (Index.filteredCoins (data r) elems))) ])),
   mkWorld (upstream w) (S (fetchCalls w)) (console w)).
Proof.
  intros Hv Hu.
  unfold Index.filterCoinsHandler, Index.filterCoinsTry, tryCatch, bind, destructure.
  rewrite Hv. simpl. rewrite (fetchBinanceData_resolves w r Hu). reflexivity.
Qed.

Lemma networksHandler_rejected (cmp : jsstring -> jsstring -> Z)
  (req : request) (w : world) (e : exn) :
  upstream w = Rejects e ->
  Index.networksHandler cmp req w =
  (inr (mkResponse 500 Index.serverError),
   mkWorld (upstream w) (S (fetchCalls w))
     (console w ++ [(lit "Error fetching data from Binance:", e);
                    (lit "Error processing request:", e)])).
Proof.
  intros Hu. unfold Index.networksHandler, Index.networksTry, tryCatch, bind.
  rewrite (fetchBinanceData_rejects w e Hu). simpl.
  unfold Index.onError, bind, console_error, json, ret. simpl.
  now rewrite <- app_assoc.
Qed.

Lemma networksHandler_resolved (cmp : jsstring -> jsstring -> Z)
  (req : request) (w : world) (r : ApiResponse) :
  upstream w = Resolves r ->
  Index.networksHandler cmp req w =
  (inr (mkResponse 200
          (VObj [ (lit "success", VBool true);
                  (lit "total", num (length (ownKeys (Index.networksMap (data r)))));
                  (lit "data",
                   jsonOfNetworkInfo
                     (Index.sortedNetworks cmp (Index.networksMap (data r)))) ])),
   mkWorld (upstream w) (S (fetchCalls w)) (console w)).
Proof.
  intros Hu. unfold Index.networksHandler, Index.networksTry, tryCatch, bind.
  rewrite (fetchBinanceData_resolves w r Hu). reflexivity.
Qed.

(** The four ways a filter-coins request can go. *)
Lemma filterCoinsHandler_cases (req : request) (w : world) :
  (getV (body req) (lit "networks") = None)
  \/ (exists v, getV (body req) (lit "networks") = Some v /\ isArray v = false)
  \/ (exists elems e, getV (body req) (lit "networks") = Some (VArr elems)
                      /\ upstream w = Rejects e)
  \/ (exists elems r, getV (body req) (lit "networks") = Some (VArr elems)
                      /\ upstream w = Resolves r).
Proof.
  destruct (getV (body req) (lit "networks")) as [v|]; [|now left].
  right. destruct (isArray v) eqn:Ea; [|left; eauto].
  right. destruct v; try discriminate.
  destruct (upstream w) as [e|r]; [left|right]; eauto.
Qed.

Lemma app_cons_neq {A : Type} (l t : list A) (a : A) : l ++ a :: t <> l.
Proof.
  intros H. apply (f_equal (@length A)) in H.
  rewrite length_app in H. simpl in H. lia.
Qed.

(** X2. Both handlers always answer: the [catch] block never rethrows.  The
    status is 200, 400 or 500, at most one upstream call is issued, and the
    console only grows. *)
Theorem handlers_always_answer
  (cmp : jsstring -> jsstring -> Z) (ep : endpoint) (req : request) (w : world) :
  exists r w',
    handler cmp ep req w = (inr r, w')
    /\ (status r = 200 \/ status r = 400 \/ status r = 500)
    /\ (fetchCalls w' = fetchCalls w \/ fetchCalls w' = S (fetchCalls w))
    /\ exists logged, console w' = console w ++ logged.
Proof.
  assert (Hsame : forall l : list (jsstring * exn), exists logged, l = l ++ logged).
  { intros l. exists []. now rewrite app_nil_r. }
  destruct ep; simpl.
  - destruct (filterCoinsHandler_cases req w)
      as [Hn|[(v & Hv & Ha)|[(elems & e & Hv & Hu)|(elems & r & Hv & Hu)]]].
    + rewrite (filterCoinsHandler_no_body req w Hn).
      do 2 eexists. split; [reflexivity|]. simpl.
      split; [auto|split; [auto|eexists; reflexivity]].
    + rewrite (filterCoinsHandler_not_array req w v Hv Ha).
      do 2 eexists. split; [reflexivity|]. simpl.
      split; [auto|split; [auto|apply Hsame]].
    + rewrite (filterCoinsHandler_rejected req w elems e Hv Hu).
      do 2 eexists. split; [reflexivity|]. simpl.
      split; [auto|split; [auto|eexists; reflexivity]].
    + rewrite (filterCoinsHandler_resolved req w elems r Hv Hu).
      do 2 eexists. split; [reflexivity|]. simpl.
      split; [auto|split; [auto|apply Hsame]].
  - destruct (upstream w) as [e|r] eqn:Eu.
    + rewrite (networksHandler_rejected cmp req w e Eu).
      do 2 eexists. split; [reflexivity|]. simpl.
      split; [auto|split; [auto|eexists; reflexivity]].
    + rewrite (networksHandler_resolved cmp req w r Eu).
      do 2 eexists. split; [reflexivity|]. simpl.
      split; [auto|split; [auto|apply Hsame]].
Qed.

(** X3. What the status of a filter-coins answer tells: 200 is answered only
    when the whitelist is an array and the upstream resolved; 400 is
    answered exactly when a [networks] value could be read and is not an
    array; and a body that cannot be read, or an array whitelist with a
    rejecting upstream, is always answered 500. *)
Theorem filter_coins_status (req : request) (w w' : world) (r : response) :
  Index.filterCoinsHandler req w = (inr r, w') ->
  (status r = 200 ->
     exists elems resp, getV (body req) (lit "networks") = Some (VArr elems)
                        /\ upstream w = Resolves resp)
  /\ (status r = 400 <->
        exists v, getV (body req) (lit "networks") = Some v /\ isArray v = false)
  /\ (getV (body req) (lit "networks") = None
      \/ (exists elems e, getV (body req) (lit "networks") = Some (VArr elems)
                          /\ upstream w = Rejects e) ->
      status r = 500).
Proof.
  intros Hrun.
  destruct (filterCoinsHandler_cases req w)
    as [Hn|[(v & Hv & Ha)|[(elems & e & Hv & Hu)|(elems & resp & Hv & Hu)]]].
  - rewrite (filterCoinsHandler_no_body req w Hn) in Hrun.
    injection Hrun as <- <-. simpl. repeat split; try discriminate; auto.
    intros (? & H & _). congruence.
  - rewrite (filterCoinsHandler_not_array req w v Hv Ha) in Hrun.
    injection Hrun as <- <-. simpl. repeat split; try discriminate; eauto.
    intros [H|(? & ? & H & _)]; [congruence|].
    rewrite Hv in H. injection H as ->. discriminate.
  - rewrite (filterCoinsHandler_rejected req w elems e Hv Hu) in Hrun.
    injection Hrun as <- <-. simpl. repeat split; try discriminate; eauto.
    intros (? & H & Hf). rewrite Hv in H. injection H as <-. discriminate.
  - rewrite (filterCoinsHandler_resolved req w elems resp Hv Hu) in Hrun.
    injection Hrun as <- <-. simpl. repeat split; try discriminate; eauto.
    + intros (? & H & Hf). rewrite Hv in H. injection H as <-. discriminate.
    + intros [H|(? & ? & _ & H)]; congruence.
Qed.

Lemma filter_coins_status_witness :
  status (mkResponse 400 Index.badRequest) = 400 <->
  exists v,
    getV (body (mkRequest (VObj [ (lit "networks", VStr (lit "ETH")) ])))
      (lit "networks") = Some v
    /\ isArray v = false.
Proof.
  apply (filter_coins_status
           (mkRequest (VObj [ (lit "networks", VStr (lit "ETH")) ]))
           (idleWorld (Resolves (mkApiResponse scenarioDataset)))
           (idleWorld (Resolves (mkApiResponse scenarioDataset)))
           (mkResponse 400 Index.badRequest)).
  vm_compute. reflexivity.
Defined.

(** X4. What the status of a networks answer tells: 200 is answered only
    when the upstream resolved, a rejecting upstream is always answered
    500, and 400 is never answered, whatever the request carries. *)
Theorem networks_status
  (cmp : jsstring -> jsstring -> Z) (req : request) (w w' : world) (r : response) :
  Index.networksHandler cmp req w = (inr r, w') ->
  (status r = 200 -> exists resp, upstream w = Resolves resp)
  /\ ((exists e, upstream w = Rejects e) -> status r = 500)
  /\ status r <> 400.
Proof.
  intros Hrun. destruct (upstream w) as [e|resp] eqn:Eu.
  - rewrite (networksHandler_rejected cmp req w e Eu) in Hrun.
    injection Hrun as <- <-. simpl. repeat split; try discriminate.
  - rewrite (networksHandler_resolved cmp req w resp Eu) in Hrun.
    injection Hrun as <- <-. simpl. repeat split; try discriminate; eauto.
    intros (? & H). discriminate.
Qed.

Lemma networks_status_witness :
  status (mkResponse 500 Index.serverError) <> 400.
Proof.
  apply (networks_status codeUnitCompare (mkRequest VUndefined)
           (idleWorld (Rejects (AxiosError (lit "ECONNRESET"))))
           (mkWorld (Rejects (AxiosError (lit "ECONNRESET"))) 1
              [ (lit "Error fetching data from Binance:", AxiosError (lit "ECONNRESET"));
                (lit "Error processing request:", AxiosError (lit "ECONNRESET")) ])
           (mkResponse 500 Index.serverError)).
  vm_compute. reflexivity.
Defined.

(** X5. Upstream calls per request: the filter-coins handler issues one call
    when the whitelist is an array and none otherwise; the networks handler
    always issues exactly one.  Nothing is retried. *)
Theorem upstream_calls_per_request
  (cmp : jsstring -> jsstring -> Z) (req : request) (w : world) :
  fetchCalls (snd (Index.filterCoinsHandler req w))
  = fetchCalls w + (match whitelistOf req with Some _ => 1 | None => 0 end)
  /\ fetchCalls (snd (Index.networksHandler cmp req w)) = S (fetchCalls w).
Proof.
  split.
  - unfold whitelistOf.
    destruct (filterCoinsHandler_cases req w)
      as [Hn|[(v & Hv & Ha)|[(elems & e & Hv & Hu)|(elems & r & Hv & Hu)]]].
    + rewrite (filterCoinsHandler_no_body req w Hn), Hn. simpl. lia.
    + rewrite (filterCoinsHandler_not_array req w v Hv Ha), Hv.
      destruct v; try discriminate; simpl; lia.
    + rewrite (filterCoinsHandler_rejected req w elems e Hv Hu), Hv. simpl. lia.
    + rewrite (filterCoinsHandler_resolved req w elems r Hv Hu), Hv. simpl. lia.
  - destruct (upstream w) as [e|r] eqn:Eu.
    + now rewrite (networksHandler_rejected cmp req w e Eu).
    + now rewrite (networksHandler_resolved cmp req w r Eu).
Qed.

(** X6. A rejected upstream call is printed twice, first by the fetcher and
    then by the handler that called it, both times with the error the
    upstream rejected with, and nothing else is printed. *)
Theorem upstream_rejection_logged_twice
  (cmp : jsstring -> jsstring -> Z) (ep : endpoint)
  (req : request) (w : world) (e : exn) :
  upstream w = Rejects e ->
  (ep = FilterCoins -> exists elems, whitelistOf req = Some elems) ->
  console (snd (handler cmp ep req w))
  = console w ++ [ (lit "Error fetching data from Binance:", e);
                   (lit "Error processing request:", e) ].
Proof.
  intros Hu Hreq. destruct ep; simpl.
  - destruct (Hreq eq_refl) as [elems He]. unfold whitelistOf in He.
    destruct (getV (body req) (lit "networks")) as [v|] eqn:Hv; [|discriminate].
    destruct v; try discriminate. injection He as ->.
    now rewrite (filterCoinsHandler_rejected req w elems e Hv Hu).
  - now rewrite (networksHandler_rejected cmp req w e Hu).
Qed.

Lemma upstream_rejection_logged_twice_witness :
  console (snd (handler codeUnitCompare FilterCoins
                  (whitelistRequest ["ETH"%string])
                  (idleWorld (Rejects (AxiosError (lit "ECONNRESET"))))))
  = console (idleWorld (Rejects (AxiosError (lit "ECONNRESET"))))
    ++ [ (lit "Error fetching data from Binance:", AxiosError (lit "ECONNRESET"));
         (lit "Error processing request:", AxiosError (lit "ECONNRESET")) ].
Proof.
  apply (upstream_rejection_logged_twice codeUnitCompare FilterCoins
           (whitelistRequest ["ETH"%string])
           (idleWorld (Rejects (AxiosError (lit "ECONNRESET"))))
           (AxiosError (lit "ECONNRESET"))).
  - reflexivity.
  - intros _. eexists. vm_compute. reflexivity.
Defined.

(** X7. The console is written exactly when the answer is 500: answers with
    status 200 or 400 print nothing, and every 500 prints something. *)
Theorem console_written_iff_500
  (cmp : jsstring -> jsstring -> Z) (ep : endpoint)
  (req : request) (w w' : world) (r : response) :
  handler cmp ep req w = (inr r, w') ->
  (console w' = console w <-> status r <> 500).
Proof.
  intros Hrun. destruct ep; simpl in Hrun.
  - destruct (filterCoinsHandler_cases req w)
      as [Hn|[(v & Hv & Ha)|[(elems & e & Hv & Hu)|(elems & resp & Hv & Hu)]]].
    + rewrite (filterCoinsHandler_no_body req w Hn) in Hrun.
      injection Hrun as <- <-. simpl. split; [|congruence].
      intros H. now apply app_cons_neq in H.
    + rewrite (filterCoinsHandler_not_array req w v Hv Ha) in Hrun.
      injection Hrun as <- <-. simpl. split; [discriminate|reflexivity].
    + rewrite (filterCoinsHandler_rejected req w elems e Hv Hu) in Hrun.
      injection Hrun as <- <-. simpl. split; [|congruence].
      intros H. now apply app_cons_neq in H.
    + rewrite (filterCoinsHandler_resolved req w elems resp Hv Hu) in Hrun.
      injection Hrun as <- <-. simpl. split; [discriminate|reflexivity].
  - destruct (upstream w) as [e|resp] eqn:Eu.
    + rewrite (networksHandler_rejected cmp req w e Eu) in Hrun.
      injection Hrun as <- <-. simpl. split; [|congruence].
      intros H. now apply app_cons_neq in H.
    + rewrite (networksHandler_resolved cmp req w resp Eu) in Hrun.
      injection Hrun as <- <-. simpl. split; [discriminate|reflexivity].
Qed.

Lemma console_written_iff_500_witness :
  console (mkWorld (Resolves (mkApiResponse scenarioDataset)) 1 [])
  = console (idleWorld (Resolves (mkApiResponse scenarioDataset)))
  <-> status scenarioResponse <> 500.
Proof.
  apply (console_written_iff_500 codeUnitCompare FilterCoins
           (whitelistRequest ["ETH"%string])
           (idleWorld (Resolves (mkApiResponse scenarioDataset)))
           (mkWorld (Resolves (mkApiResponse scenarioDataset)) 1 [])
           scenarioResponse).
  vm_compute. reflexivity.
Defined.

(** X8. A filter-coins request whose body is [undefined] or [null] makes the
    destructuring throw: the answer is the generic 500, the [TypeError] is
    printed, and no upstream call is issued. *)
Theorem missing_body_answers_500 (req : request) (w : world) :
  body req = VUndefined \/ body req = VNull ->
  exists detail,
    Index.filterCoinsHandler req w =
    (inr (mkResponse 500
            (VObj [ (lit "success", VBool false);
                    (lit "message", VStr (lit "Internal server error")) ])),
     mkWorld (upstream w) (fetchCalls w)
       (console w ++ [(lit "Error processing request:", TypeError detail)])).
Proof.
  intros Hb. eexists. apply filterCoinsHandler_no_body.
  unfold getV. destruct Hb as [-> | ->]; reflexivity.
Qed.

Lemma missing_body_answers_500_witness :
  exists detail,
    Index.filterCoinsHandler (mkRequest VUndefined)
      (idleWorld (Resolves (mkApiResponse scenarioDataset))) =
    (inr (mkResponse 500
            (VObj [ (lit "success", VBool false);
                    (lit "message", VStr (lit "Internal server error")) ])),
     mkWorld (upstream (idleWorld (Resolves (mkApiResponse scenarioDataset))))
       (fetchCalls (idleWorld (Resolves (mkApiResponse scenarioDataset))))
       (console (idleWorld (Resolves (mkApiResponse scenarioDataset)))
        ++ [(lit "Error processing request:", TypeError detail)])).
Proof.
  apply (missing_body_answers_500 (mkRequest VUndefined)
           (idleWorld (Resolves (mkApiResponse scenarioDataset)))).
  left. reflexivity.
Defined.

(* ===================================================================== *)
(** * Further properties of the filter *)
(* ===================================================================== *)

Lemma hasOtherNetwork_false (whitelist : list value) (c : Coin) :
  Index.hasOtherNetwork (Set_of whitelist) c = false <->
  forall n, In n (networkList c) -> In (VStr (network n)) whitelist.
Proof.
  unfold Index.hasOtherNetwork, Set_of. split.
  - intros H n Hn. apply has_In.
    destruct (has whitelist (network n)) eqn:E; [reflexivity|].
    assert (Ht : existsb (fun n0 => negb (has whitelist (network n0))) (networkList c)
                 = true).
    { apply existsb_exists. exists n. split; [assumption|]. now rewrite E. }
    congruence.
  - intros H.
    destruct (existsb (fun n => negb (has whitelist (network n))) (networkList c))
      eqn:E; [|reflexivity].
    apply existsb_exists in E as [n [Hn Hneg]].
    apply H, has_In in Hn. rewrite Hn in Hneg. discriminate.
Qed.

Lemma filter_filter_implied {A : Type} (f g : A -> bool) (l : list A) :
  (forall x, f x = true -> g x = true) -> filter f (filter g l) = filter f l.
Proof.
  intros H. induction l as [|a l IH]; simpl; [reflexivity|].
  destruct (g a) eqn:Eg; simpl.
  - destruct (f a); now rewrite IH.
  - destruct (f a) eqn:Ef; [|assumption]. apply H in Ef. congruence.
Qed.

(** X9. The filter sees the whitelist as a set of strings: two whitelists
    that contain the same strings give the same result, whatever the
    order, the repetitions and the entries that are not strings. *)
Theorem whitelist_is_a_set_of_strings
  (dataset : list Coin) (w1 w2 : list value) :
  (forall k, In (VStr k) w1 <-> In (VStr k) w2) ->
  Index.filteredCoins dataset w1 = Index.filteredCoins dataset w2.
Proof.
  intros H. unfold Index.filteredCoins. f_equal. apply filter_ext. intros c.
  destruct (Index.hasOtherNetwork (Set_of w2) c) eqn:E2.
  - apply hasOtherNetwork_spec in E2 as [n [Hn Hout]].
    apply hasOtherNetwork_spec. exists n. split; [assumption|]. now rewrite H.
  - apply hasOtherNetwork_false. intros n Hn. apply H.
    revert n Hn. now apply hasOtherNetwork_false.
Qed.

Lemma whitelist_is_a_set_of_strings_witness :
  Index.filteredCoins scenarioDataset
    [ VNum (inject_Z 7); VStr (lit "ETH"); VNull; VStr (lit "ETH") ]
  = Index.filteredCoins scenarioDataset [ VStr (lit "ETH") ].
Proof.
  apply (whitelist_is_a_set_of_strings scenarioDataset
           [ VNum (inject_Z 7); VStr (lit "ETH"); VNull; VStr (lit "ETH") ]
           [ VStr (lit "ETH") ]).
  intros k. simpl. split.
  - intros [H|[H|[H|[H|[]]]]]; try discriminate; now left.
  - intros [H|[]]. right. now left.
Defined.

(** X10. Whitelisting more can only drop coins: when every string of [w1] is
    also in [w2], every coin that [w2] retains is among those that [w1]
    retains (filtering the dataset with [w2] and filtering with [w2] the
    coins retained by [w1] give the same), so [w2] never gives more coins
    than [w1]. *)
Theorem larger_whitelist_retains_fewer
  (dataset : list Coin) (w1 w2 : list value) :
  (forall k, In (VStr k) w1 -> In (VStr k) w2) ->
  Index.filteredCoins dataset w2
  = Index.filteredCoins (filter (Index.hasOtherNetwork (Set_of w1)) dataset) w2
  /\ length (Index.filteredCoins dataset w2) <= length (Index.filteredCoins dataset w1).
Proof.
  intros H.
  assert (Himp : forall c, Index.hasOtherNetwork (Set_of w2) c = true ->
                           Index.hasOtherNetwork (Set_of w1) c = true).
  { intros c Hc. apply hasOtherNetwork_spec in Hc as [n [Hn Hout]].
    apply hasOtherNetwork_spec. exists n. split; auto. }
  assert (Heq : Index.filteredCoins dataset w2
                = Index.filteredCoins
                    (filter (Index.hasOtherNetwork (Set_of w1)) dataset) w2).
  { unfold Index.filteredCoins. f_equal. symmetry.
    now apply filter_filter_implied. }
  split; [exact Heq|]. rewrite Heq. unfold Index.filteredCoins.
  rewrite !length_map. apply filter_length_le.
Qed.

Lemma larger_whitelist_retains_fewer_witness :
  length (Index.filteredCoins scenarioDataset [ VStr (lit "ETH"); VStr (lit "BSC") ])
  <= length (Index.filteredCoins scenarioDataset [ VStr (lit "ETH") ]).
Proof.
  apply (larger_whitelist_retains_fewer scenarioDataset
           [ VStr (lit "ETH") ] [ VStr (lit "ETH"); VStr (lit "BSC") ]).
  intros k. simpl. intros [H|[]]. now left.
Defined.

(** X11. [total] never exceeds [totalCoins]: the filter returns at most as
    many coins as the dataset has, and as many exactly when every coin has
    a network outside the whitelist. *)
Theorem total_at_most_total_coins (dataset : list Coin) (whitelist : list value) :
  length (Index.filteredCoins dataset whitelist) <= length dataset
  /\ (length (Index.filteredCoins dataset whitelist) = length dataset <->
      Forall (nonWhitelisted whitelist) dataset).
Proof.
  unfold Index.filteredCoins. rewrite length_map.
  split; [apply filter_length_le|].
  induction dataset as [|c d IH]; simpl.
  - split; [constructor|reflexivity].
  - pose proof (filter_length_le (Index.hasOtherNetwork (Set_of whitelist)) d) as Hle.
    destruct (Index.hasOtherNetwork (Set_of whitelist) c) eqn:E; simpl.
    + apply hasOtherNetwork_spec in E. split.
      * intros H. constructor; [assumption|]. apply IH. lia.
      * intros H. inversion H; subst. f_equal. now apply IH.
    + split; [lia|]. intros H. inversion H as [|? ? Hc _]; subst.
      apply hasOtherNetwork_spec in Hc. congruence.
Qed.

(** X12. The result is empty exactly when the whitelist covers every network
    code of the dataset; coins without networks never count. *)
Theorem fully_whitelisted_dataset_is_empty
  (dataset : list Coin) (whitelist : list value) :
  Index.filteredCoins dataset whitelist = [] <->
  forall k, In k (codes dataset) -> In (VStr k) whitelist.
Proof.
  unfold Index.filteredCoins, codes.
  induction dataset as [|c d IH]; simpl.
  - split; [intros _ k []|reflexivity].
  - destruct (Index.hasOtherNetwork (Set_of whitelist) c) eqn:E; simpl.
    + split; [discriminate|]. intros H. exfalso.
      apply hasOtherNetwork_spec in E as [n [Hn Hout]]. apply Hout, H.
      apply in_or_app. left. now apply in_map.
    + rewrite IH. split.
      * intros H k Hk. apply in_app_or in Hk as [Hk|Hk]; [|now apply H].
        apply in_map_iff in Hk as [n [<- Hn]]. revert n Hn.
        now apply hasOtherNetwork_false.
      * intros H k Hk. apply H. apply in_or_app. now right.
Qed.

(** X13. On an empty dataset both endpoints answer 200 with empty data and
    zero counts: an empty upstream is not an error. *)
Theorem empty_dataset_is_not_an_error
  (cmp : jsstring -> jsstring -> Z) (req : request) (w : world)
  (whitelist : list value) :
  upstream w = Resolves (mkApiResponse []) ->
  whitelistOf req = Some whitelist ->
  fst (Index.filterCoinsHandler req w)
  = inr (mkResponse 200
           (VObj [ (lit "success", VBool true);
                   (lit "total", num 0);
                   (lit "totalCoins", num 0);
                   (lit "data", VArr []) ]))
  /\ fst (Index.networksHandler cmp req w)
     = inr (mkResponse 200
              (VObj [ (lit "success", VBool true);
                      (lit "total", num 0);
                      (lit "data", VObj []) ])).
Proof.
  intros Hu Hw. unfold whitelistOf in Hw.
  destruct (getV (body req) (lit "networks")) as [v|] eqn:Hv; [|discriminate].
  destruct v; try discriminate. injection Hw as ->.
  rewrite (filterCoinsHandler_resolved req w whitelist _ Hv Hu).
  rewrite (networksHandler_resolved cmp req w _ Hu).
  split; reflexivity.
Qed.

Lemma empty_dataset_is_not_an_error_witness :
  fst (Index.filterCoinsHandler (whitelistRequest ["ETH"%string])
         (idleWorld (Resolves (mkApiResponse []))))
  = inr (mkResponse 200
           (VObj [ (lit "success", VBool true);
                   (lit "total", num 0);
                   (lit "totalCoins", num 0);
                   (lit "data", VArr []) ])).
Proof.
  apply (empty_dataset_is_not_an_error codeUnitCompare
           (whitelistRequest ["ETH"%string])
           (idleWorld (Resolves (mkApiResponse [])))
           [ VStr (lit "ETH") ]).
  - reflexivity.
  - vm_compute. reflexivity.
Defined.

(* ===================================================================== *)
(** * Further properties of the network map of a coin *)
(* ===================================================================== *)

Section EnumerationFacts.
Context {V : Type}.
Implicit Types (o : props V) (k : jsstring) (v : V).

Lemma insertByIndex_perm (e : N * (jsstring * V)) (l : list (N * (jsstring * V))) :
  Permutation (insertByIndex e l) (e :: l).
Proof.
  induction l as [|e' l IH]; simpl; [reflexivity|].
  destruct (N.leb (fst e) (fst e')); [reflexivity|].
  rewrite IH. apply perm_swap.
Qed.

Lemma sortByIndex_perm (l : list (N * (jsstring * V))) :
  Permutation (fold_right insertByIndex [] l) l.
Proof.
  induction l as [|e l IH]; simpl; [reflexivity|].
  rewrite insertByIndex_perm. now constructor.
Qed.

Lemma indexed_entries o :
  map snd (indexed o) = filter (fun p => isIndexKey (fst p)) o.
Proof.
  unfold indexed, isIndexKey. induction o as [|[k v] o IH]; simpl; [reflexivity|].
  destruct (arrayIndex k); simpl; now rewrite IH.
Qed.

Lemma indexed_sound o :
  Forall (fun e => arrayIndex (fst (snd e)) = Some (fst e)) (indexed o).
Proof.
  unfold indexed. induction o as [|[k v] o IH]; simpl; [constructor|].
  destruct (arrayIndex k) eqn:E; simpl; [constructor|]; assumption.
Qed.

Lemma split_by_index_perm o :
  Permutation (filter (fun p => isIndexKey (fst p)) o
               ++ filter (fun p => negb (isIndexKey (fst p))) o) o.
Proof.
  induction o as [|p o IH]; simpl; [reflexivity|].
  destruct (isIndexKey (fst p)); simpl.
  - now constructor.
  - symmetry. apply Permutation_cons_app. now symmetry.
Qed.

(** Enumeration reorders the own properties and neither drops nor invents
    one. *)
Lemma ownEntries_perm o : Permutation (ownEntries o) o.
Proof.
  unfold ownEntries.
  rewrite (Permutation_map snd (sortByIndex_perm (indexed o))).
  rewrite indexed_entries. apply split_by_index_perm.
Qed.

Lemma ownKeys_perm o : Permutation (ownKeys o) (map fst o).
Proof.
  unfold ownKeys. apply Permutation_map, ownEntries_perm.
Qed.

Lemma defineOwn_NoDup o k v :
  NoDup (map fst o) -> NoDup (map fst (defineOwn o k v)).
Proof.
  intros H. destruct (getOwn o k) eqn:E.
  - rewrite defineOwn_keys_present; [assumption|congruence].
  - rewrite (defineOwn_fresh o k v E), map_app. simpl.
    apply (Permutation_NoDup (Permutation_cons_append _ _)).
    constructor; [|assumption]. now apply getOwn_None.
Qed.

Lemma assign_NoDup o k v :
  NoDup (map fst o) -> NoDup (map fst (assign o k v)).
Proof.
  intros H. unfold assign.
  destruct (getOwn o k); [now apply defineOwn_NoDup|].
  destruct (str_eqb k (lit "__proto__")); [assumption|now apply defineOwn_NoDup].
Qed.

Lemma In_keys_getOwn o k : In k (map fst o) <-> getOwn o k <> None.
Proof.
  destruct (getOwn o k) eqn:E.
  - split; [congruence|]. intros _. apply getOwn_In in E.
    change k with (fst (k, v)). now apply in_map.
  - apply getOwn_None in E. split; [contradiction|congruence].
Qed.
End EnumerationFacts.

Lemma networkMap_NoDup (c : Coin) : NoDup (map fst (Index.networkMap c)).
Proof.
  unfold Index.networkMap.
  assert (H : forall l (m : props SimplifiedNetwork),
             NoDup (map fst m) ->
             NoDup (map fst
                      (fold_left
                         (fun m n =>
                            assign m (network n)
                              (mkSimplifiedNetwork (net_name n) (withdrawEnable n)
                                 (depositEnable n))) l m))).
  { induction l as [|n l IH]; intros m Hm; simpl; [assumption|].
    apply IH. now apply assign_NoDup. }
  apply H. constructor.
Qed.

Lemma lastWithCode_found (k : jsstring) (l : list Network) :
  lastWithCode k l <> None <-> In k (map network l).
Proof.
  unfold lastWithCode. split.
  - destruct (find (fun n => str_eqb (network n) k) (rev l)) as [n|] eqn:E;
      [intros _|congruence].
    apply find_some in E as [Hin Hk]. apply str_eqb_eq in Hk. subst k.
    apply in_map. now apply in_rev.
  - intros Hin Hnone. apply in_map_iff in Hin as [n [<- Hn]].
    apply in_rev in Hn. apply (find_none _ _ Hnone n) in Hn.
    now rewrite str_eqb_refl in Hn.
Qed.

(** X14. The keys of a simplified coin's network map, as the response lists
    them, are pairwise distinct and are exactly the network codes of the
    coin other than [__proto__]; there are never more keys than networks. *)
Theorem network_map_keys (c : Coin) :
  NoDup (ownKeys (Index.networkMap c))
  /\ (forall k, In k (ownKeys (Index.networkMap c)) <->
                In k (map network (networkList c)) /\ k <> lit "__proto__")
  /\ length (ownKeys (Index.networkMap c)) <= length (networkList c).
Proof.
  assert (Hnd : NoDup (ownKeys (Index.networkMap c))).
  { apply (Permutation_NoDup (Permutation_sym (ownKeys_perm _))).
    apply networkMap_NoDup. }
  assert (Hkeys : forall k, In k (ownKeys (Index.networkMap c)) <->
                   In k (map network (networkList c)) /\ k <> lit "__proto__").
  { intros k. split.
    - intros Hin. apply (Permutation_in _ (ownKeys_perm _)) in Hin.
      apply In_keys_getOwn in Hin. rewrite networkMap_lookup in Hin.
      destruct (str_eqb k (lit "__proto__")) eqn:E; [congruence|].
      apply str_eqb_neq in E. split; [|assumption].
      apply lastWithCode_found.
      destruct (lastWithCode k (networkList c)); simpl in Hin; congruence.
    - intros [Hin Hk]. apply (Permutation_in _ (Permutation_sym (ownKeys_perm _))).
      apply In_keys_getOwn. rewrite networkMap_lookup.
      apply str_eqb_neq in Hk. rewrite Hk.
      apply lastWithCode_found in Hin.
      destruct (lastWithCode k (networkList c)); simpl; congruence. }
  split; [assumption|split; [assumption|]].
  rewrite <- (length_map network (networkList c)).
  apply NoDup_incl_length; [assumption|].
  intros k Hk. now apply Hkeys in Hk.
Qed.

Lemma fold_assign_fresh (l : list Network) (acc : props SimplifiedNetwork) :
  NoDup (map fst acc ++ map network l) ->
  ~ In (lit "__proto__") (map network l) ->
  fold_left
    (fun m n =>
       assign m (network n)
         (mkSimplifiedNetwork (net_name n) (withdrawEnable n) (depositEnable n)))
    l acc
  = acc ++ map networkEntry l.
Proof.
  revert acc. induction l as [|n l IH]; intros acc Hnd Hp; simpl.
  - now rewrite app_nil_r.
  - simpl in Hnd, Hp.
    assert (Hfresh : getOwn acc (network n) = None).
    { apply getOwn_None. intros Hin. apply NoDup_remove_2 in Hnd.
      apply Hnd. apply in_or_app. now left. }
    assert (Hk : str_eqb (network n) (lit "__proto__") = false).
    { apply str_eqb_neq. intros E. apply Hp. now left. }
    unfold assign at 2. rewrite Hfresh, Hk, (defineOwn_fresh acc _ _ Hfresh).
    rewrite IH.
    + rewrite <- app_assoc. reflexivity.
    + rewrite map_app, <- app_assoc. exact Hnd.
    + intros Hin. apply Hp. now right.
Qed.

(** X15. For a coin whose network codes are pairwise distinct and none of
    which is [__proto__], the network map has one entry per network, in the
    order of the network list, each with the name and the two flags of its
    network; when moreover no code is an array index the response lists
    them in that order. *)
Theorem network_map_of_distinct_codes (c : Coin) :
  NoDup (map network (networkList c)) ->
  ~ In (lit "__proto__") (map network (networkList c)) ->
  Index.networkMap c = map networkEntry (networkList c)
  /\ (Forall (fun k => arrayIndex k = None) (map network (networkList c)) ->
      ownEntries (Index.networkMap c) = map networkEntry (networkList c)).
Proof.
  intros Hnd Hp.
  assert (H : Index.networkMap c = map networkEntry (networkList c)).
  { unfold Index.networkMap. now rewrite fold_assign_fresh. }
  split; [exact H|]. intros Hidx. rewrite H.
  apply ownEntries_without_index. rewrite map_map. exact Hidx.
Qed.

Lemma network_map_of_distinct_codes_witness :
  ownEntries (Index.networkMap (mkCoin (lit "BTC") (lit "Bitcoin")
                      [ net "BSC" "BNB Smart Chain (BEP20)"; net "ETH" "Ethereum (ERC20)" ]))
  = map networkEntry
      [ net "BSC" "BNB Smart Chain (BEP20)"; net "ETH" "Ethereum (ERC20)" ].
Proof.
  apply (network_map_of_distinct_codes
           (mkCoin (lit "BTC") (lit "Bitcoin")
              [ net "BSC" "BNB Smart Chain (BEP20)"; net "ETH" "Ethereum (ERC20)" ])).
  - vm_compute.
    constructor; [intros [H|[]]; discriminate|].
    constructor; [intros []|constructor].
  - vm_compute. intros [H|[H|[]]]; discriminate.
  - repeat constructor.
Defined.

(* ===================================================================== *)
(** * Further properties of the network index *)
(* ===================================================================== *)

Lemma shadowed_lt (k a b : jsstring) :
  shadowed k a = true -> shadowed k b = false -> length a < length b.
Proof.
  unfold shadowed. destruct (getOwn objectPrototype k) as [[arity|]|]; try discriminate.
  intros Ha Hb. apply negb_true_iff, Nat.ltb_ge in Ha.
  apply negb_false_iff, Nat.ltb_lt in Hb. lia.
Qed.

Lemma shadowed_longer (k a b : jsstring) :
  shadowed k a = false -> length a <= length b -> shadowed k b = false.
Proof.
  unfold shadowed. destruct (getOwn objectPrototype k) as [[arity|]|]; try discriminate;
    [|reflexivity].
  intros Ha Hle. apply negb_false_iff, Nat.ltb_lt in Ha.
  apply negb_false_iff, Nat.ltb_lt. lia.
Qed.

Lemma record_unrecorded (m : NetworkInfo) (n : Network) :
  getOwn m (network n) = None ->
  Index.record m n =
  if shadowed (network n) (net_name n) then m
  else defineOwn m (network n) (net_name n).
Proof.
  intros Hm. unfold Index.record, Index.shouldRecord, get, shadowed, assign.
  rewrite Hm.
  assert (Hp : getOwn objectPrototype (network n) <> Some ProtoAccessor ->
               str_eqb (network n) (lit "__proto__") = false).
  { intros H. apply str_eqb_neq. intros E. apply H. rewrite E. reflexivity. }
  destruct (getOwn objectPrototype (network n)) as [[arity|]|] eqn:Ep.
  - destruct (arity <? length (net_name n)); simpl; [|reflexivity].
    rewrite Hp; [reflexivity|discriminate].
  - reflexivity.
  - rewrite Hp; [reflexivity|discriminate].
Qed.

(** The table after any run of updates, whatever the codes: keys are
    distinct, a recorded name is the first of the longest names of its code
    and is not a passed-over one, and a code without entry has only
    passed-over names. *)
Lemma index_invariant (ns : list Network) :
  NoDup (map fst (fold_left Index.record ns []))
  /\ (forall k s, getOwn (fold_left Index.record ns []) k = Some s ->
                  firstLongest k s ns /\ shadowed k s = false)
  /\ (forall k, getOwn (fold_left Index.record ns []) k = None ->
                Forall (fun n => network n = k -> shadowed k (net_name n) = true) ns).
Proof.
  induction ns as [|x ns IH] using rev_ind.
  - simpl. repeat split; try constructor; discriminate.
  - destruct IH as (Hnd & Hval & Hnone).
    rewrite fold_left_app. simpl.
    set (m := fold_left Index.record ns []) in *.
    destruct (getOwn m (network x)) as [s0|] eqn:Em.
    + (* a name is recorded for the code of [x] *)
      destruct (Hval _ _ Em) as [Hfl Hsh].
      pose proof (firstLongest_bound _ _ _ Hfl) as Hb.
      assert (Hown : getOwn (Index.record m x) (network x) <> None).
      { rewrite (record_recorded m x s0 Em).
        destruct (length s0 <? length (net_name x));
          [rewrite getOwn_defineOwn_same|]; congruence. }
      split; [|split].
      * rewrite (record_recorded m x s0 Em).
        destruct (length s0 <? length (net_name x)); [now apply defineOwn_NoDup|assumption].
      * intros k s Hs. destruct (str_eqb k (network x)) eqn:E.
        -- apply str_eqb_eq in E. subst k.
           rewrite (record_recorded m x s0 Em) in Hs.
           destruct (length s0 <? length (net_name x)) eqn:El.
           ++ rewrite getOwn_defineOwn_same in Hs. injection Hs as <-.
              apply Nat.ltb_lt in El. split.
              ** apply firstLongest_new. eapply Forall_impl; [|exact Hb]. simpl.
                 intros a H Ha. specialize (H Ha). lia.
              ** apply (shadowed_longer _ s0); [assumption|lia].
           ++ apply Nat.ltb_ge in El. rewrite Em in Hs. injection Hs as <-.
              split; [|assumption]. apply firstLongest_later; auto.
        -- apply str_eqb_neq in E. rewrite record_other in Hs by assumption.
           destruct (Hval _ _ Hs) as [Hfl' Hsh']. split; [|assumption].
           apply firstLongest_later; auto. congruence.
      * intros k Hk. assert (Hne : k <> network x) by congruence.
        rewrite record_other in Hk by assumption.
        apply Forall_app. split; [now apply Hnone|].
        constructor; [|constructor]. congruence.
    + (* nothing is recorded for the code of [x] *)
      rewrite (record_unrecorded m x Em).
      destruct (shadowed (network x) (net_name x)) eqn:Esh.
      * split; [assumption|split].
        -- intros k s Hs. destruct (Hval _ _ Hs) as [Hfl Hsh]. split; [|assumption].
           apply firstLongest_later; auto. congruence.
        -- intros k Hk. apply Forall_app. split; [now apply Hnone|].
           constructor; [|constructor]. now intros <-.
      * split; [now apply defineOwn_NoDup|split].
        -- intros k s Hs. destruct (str_eqb k (network x)) eqn:E.
           ++ apply str_eqb_eq in E. subst k.
              rewrite getOwn_defineOwn_same in Hs. injection Hs as <-.
              split; [|assumption]. apply firstLongest_new.
              eapply Forall_impl; [|exact (Hnone _ Em)]. simpl.
              intros a H Ha. eapply shadowed_lt; eauto.
           ++ apply str_eqb_neq in E.
              rewrite getOwn_defineOwn_other in Hs by assumption.
              destruct (Hval _ _ Hs) as [Hfl Hsh]. split; [|assumption].
              apply firstLongest_later; auto. congruence.
        -- intros k Hk. destruct (str_eqb k (network x)) eqn:E.
           ++ apply str_eqb_eq in E. subst k.
              rewrite getOwn_defineOwn_same in Hk. discriminate.
           ++ apply str_eqb_neq in E.
              rewrite getOwn_defineOwn_other in Hk by assumption.
              apply Forall_app. split; [now apply Hnone|].
              constructor; [|constructor]. congruence.
Qed.

Lemma networksMap_NoDup (dataset : list Coin) :
  NoDup (map fst (Index.networksMap dataset)).
Proof.
  rewrite networksMap_flat. apply index_invariant.
Qed.

Section RebuildFacts.
Context {V : Type}.
Implicit Types (o acc l : props V).

(** The [reduce] over any list of entries with distinct keys keeps every
    entry. *)
Lemma rebuild_perm l acc :
  NoDup (map fst (acc ++ l)) ->
  Permutation (fold_left (fun obj e => spreadWith obj (fst e) (snd e)) l acc)
              (acc ++ l).
Proof.
  revert acc. induction l as [|[k v] l IH]; intros acc Hnd; simpl.
  - now rewrite app_nil_r.
  - assert (Hfresh : getOwn (ownEntries acc) k = None).
    { apply getOwn_None. intros Hin.
      apply (Permutation_in _ (ownKeys_perm acc)) in Hin.
      rewrite map_app in Hnd. simpl in Hnd. apply NoDup_remove_2 in Hnd.
      apply Hnd. apply in_or_app. now left. }
    unfold spreadWith. rewrite (defineOwn_fresh _ k v Hfresh).
    assert (Hp : Permutation ((ownEntries acc ++ [(k, v)]) ++ l) (acc ++ (k, v) :: l)).
    { rewrite <- app_assoc. simpl. apply Permutation_app_tail, ownEntries_perm. }
    rewrite IH; [exact Hp|].
    apply (Permutation_NoDup (Permutation_map fst (Permutation_sym Hp)) Hnd).
Qed.

Lemma filter_none {A : Type} (f : A -> bool) (l : list A) :
  Forall (fun x => f x = false) l -> filter f l = [].
Proof.
  induction 1 as [|x l Hx _ IH]; simpl; [reflexivity|]. now rewrite Hx.
Qed.

Lemma ownEntries_head_indexed o :
  Forall (fun p => isIndexKey (fst p) = true)
         (map snd (fold_right insertByIndex [] (indexed o))).
Proof.
  apply (Permutation_Forall
           (Permutation_sym (Permutation_map snd (sortByIndex_perm (indexed o))))).
  rewrite indexed_entries. apply Forall_forall. intros p Hp.
  now apply filter_In in Hp.
Qed.

(** Enumeration leaves the keys that are not array indices in creation
    order. *)
Lemma ownEntries_nonindex o :
  filter (fun p => negb (isIndexKey (fst p))) (ownEntries o)
  = filter (fun p => negb (isIndexKey (fst p))) o.
Proof.
  unfold ownEntries. rewrite filter_app, filter_none.
  - simpl. now apply filter_filter_implied.
  - eapply Forall_impl; [|apply ownEntries_head_indexed].
    simpl. intros p Hp. now rewrite Hp.
Qed.

Lemma rebuild_nonindex l acc :
  NoDup (map fst (acc ++ l)) ->
  filter (fun p => negb (isIndexKey (fst p)))
         (fold_left (fun obj e => spreadWith obj (fst e) (snd e)) l acc)
  = filter (fun p => negb (isIndexKey (fst p))) (acc ++ l).
Proof.
  revert acc. induction l as [|[k v] l IH]; intros acc Hnd; simpl.
  - now rewrite app_nil_r.
  - assert (Hfresh : getOwn (ownEntries acc) k = None).
    { apply getOwn_None. intros Hin.
      apply (Permutation_in _ (ownKeys_perm acc)) in Hin.
      rewrite map_app in Hnd. simpl in Hnd. apply NoDup_remove_2 in Hnd.
      apply Hnd. apply in_or_app. now left. }
    unfold spreadWith. rewrite (defineOwn_fresh _ k v Hfresh).
    assert (Hp : Permutation ((ownEntries acc ++ [(k, v)]) ++ l) (acc ++ (k, v) :: l)).
    { rewrite <- app_assoc. simpl. apply Permutation_app_tail, ownEntries_perm. }
    rewrite IH.
    + rewrite <- app_assoc. simpl.
      rewrite !filter_app, ownEntries_nonindex. reflexivity.
    + apply (Permutation_NoDup (Permutation_map fst (Permutation_sym Hp)) Hnd).
Qed.
End RebuildFacts.

(** Sorting the entries and folding them back into an object keeps every
    entry of a table with distinct keys, whatever the comparator. *)
Lemma sortedNetworks_perm (cmp : jsstring -> jsstring -> Z) (m : NetworkInfo) :
  NoDup (map fst m) ->
  Permutation (ownEntries (Index.sortedNetworks cmp m)) m.
Proof.
  intros Hnd. rewrite ownEntries_perm. unfold Index.sortedNetworks.
  assert (Hs : Permutation
                 (sort (fun a b => cmp (fst a) (fst b)) (ownEntries m)) m).
  { rewrite sort_perm. apply ownEntries_perm. }
  rewrite rebuild_perm; simpl; [exact Hs|].
  apply (Permutation_NoDup (Permutation_map fst (Permutation_sym Hs)) Hnd).
Qed.

(** X16. For every dataset and comparator, the keys of the index the
    networks endpoint answers with are pairwise distinct, and every entry
    carries the first of the longest names that the dataset gives for its
    code. *)
Theorem index_entries_are_first_longest
  (cmp : jsstring -> jsstring -> Z) (dataset : list Coin) :
  NoDup (ownKeys (Index.sortedNetworks cmp (Index.networksMap dataset)))
  /\ (forall k s,
        In (k, s) (ownEntries (Index.sortedNetworks cmp (Index.networksMap dataset)))
        -> firstLongest k s (allNetworks dataset)).
Proof.
  pose proof (networksMap_NoDup dataset) as Hnd.
  pose proof (sortedNetworks_perm cmp _ Hnd) as Hp.
  split.
  - unfold ownKeys.
    apply (Permutation_NoDup (Permutation_map fst (Permutation_sym Hp)) Hnd).
  - intros k s Hin. apply (Permutation_in _ Hp) in Hin.
    apply In_getOwn in Hin; [|assumption].
    rewrite networksMap_flat in Hin.
    now apply (index_invariant (allNetworks dataset)) in Hin.
Qed.

(** X17. Which codes get into the index: a code is a key exactly when some
    network of the dataset carries it with a name that is not passed over.
    So a code that names no property of [Object.prototype] is a key as soon
    as it occurs, and [__proto__] is never a key. *)
Theorem index_key_set
  (cmp : jsstring -> jsstring -> Z) (dataset : list Coin) (k : jsstring) :
  (In k (ownKeys (Index.sortedNetworks cmp (Index.networksMap dataset))) <->
     exists n, In n (allNetworks dataset) /\ network n = k
               /\ shadowed k (net_name n) = false)
  /\ (getOwn objectPrototype k = None ->
      (In k (ownKeys (Index.sortedNetworks cmp (Index.networksMap dataset)))
       <-> In k (codes dataset)))
  /\ ~ In (lit "__proto__")
         (ownKeys (Index.sortedNetworks cmp (Index.networksMap dataset))).
Proof.
  pose proof (networksMap_NoDup dataset) as Hnd.
  pose proof (sortedNetworks_perm cmp _ Hnd) as Hp.
  assert (Hkeys : forall k',
             In k' (ownKeys (Index.sortedNetworks cmp (Index.networksMap dataset)))
             <-> getOwn (Index.networksMap dataset) k' <> None).
  { intros k'. rewrite <- In_keys_getOwn. unfold ownKeys.
    split; apply Permutation_in; apply Permutation_map;
      [exact Hp|exact (Permutation_sym Hp)]. }
  destruct (index_invariant (allNetworks dataset)) as (_ & Hval & Hnone).
  rewrite <- networksMap_flat in Hval, Hnone.
  assert (Hchar : forall k',
             In k' (ownKeys (Index.sortedNetworks cmp (Index.networksMap dataset)))
             <-> exists n, In n (allNetworks dataset) /\ network n = k'
                           /\ shadowed k' (net_name n) = false).
  { intros k'. rewrite Hkeys. split.
    - destruct (getOwn (Index.networksMap dataset) k') as [s|] eqn:E; [|congruence].
      intros _. destruct (Hval _ _ E) as [(before & n & after & Hns & Hk & Hs & _) Hsh].
      exists n. subst s. repeat split; auto.
      rewrite Hns. apply in_or_app. right. now left.
    - intros (n & Hin & Hk & Hsh) E. specialize (Hnone _ E).
      rewrite Forall_forall in Hnone. rewrite (Hnone n Hin Hk) in Hsh. discriminate. }
  split; [apply Hchar|split].
  - intros Hplain. rewrite Hchar, codes_allNetworks, in_map_iff.
    split.
    + intros (n & Hin & Hk & _). eauto.
    + intros (n & Hk & Hin). exists n. repeat split; auto.
      unfold shadowed. now rewrite Hplain.
  - rewrite Hchar. intros (n & _ & _ & Hsh). vm_compute in Hsh. discriminate.
Qed.

Lemma record_grows (m : NetworkInfo) (n : Network) (k s : jsstring) :
  getOwn m k = Some s ->
  exists s', getOwn (Index.record m n) k = Some s' /\ length s <= length s'.
Proof.
  intros Hs. destruct (str_eqb k (network n)) eqn:E.
  - apply str_eqb_eq in E. subst k. rewrite (record_recorded m n s Hs).
    destruct (length s <? length (net_name n)) eqn:El.
    + apply Nat.ltb_lt in El. exists (net_name n).
      rewrite getOwn_defineOwn_same. split; [reflexivity|lia].
    + exists s. auto.
  - apply str_eqb_neq in E. exists s. rewrite record_other by assumption. auto.
Qed.

Lemma fold_record_grows (ns : list Network) (m : NetworkInfo) (k s : jsstring) :
  getOwn m k = Some s ->
  exists s', getOwn (fold_left Index.record ns m) k = Some s' /\ length s <= length s'.
Proof.
  revert m s. induction ns as [|n ns IH]; intros m s Hs; simpl; [eauto|].
  destruct (record_grows m n k s Hs) as (s1 & H1 & Hle1).
  destruct (IH _ _ H1) as (s2 & H2 & Hle2). exists s2. split; [assumption|lia].
Qed.

Lemma networksMap_app (d1 d2 : list Coin) :
  Index.networksMap (d1 ++ d2)
  = fold_left Index.record (allNetworks d2) (Index.networksMap d1).
Proof.
  rewrite !networksMap_flat. unfold allNetworks.
  now rewrite flat_map_app, fold_left_app.
Qed.

(** X18. More coins never take a code out of the index and never shorten
    its name: what is recorded for a dataset is still recorded, with a name
    at least as long, for every dataset that extends it. *)
Theorem index_only_grows (d1 d2 : list Coin) (k s : jsstring) :
  getOwn (Index.networksMap d1) k = Some s ->
  exists s', getOwn (Index.networksMap (d1 ++ d2)) k = Some s'
             /\ length s <= length s'.
Proof.
  intros Hs. rewrite networksMap_app. now apply fold_record_grows.
Qed.

Lemma index_only_grows_witness :
  exists s',
    getOwn (Index.networksMap
              ([ mkCoin (lit "B") (lit "B coin") [ net "BSC" "BSC" ] ]
               ++ [ mkCoin (lit "A") (lit "A coin")
                      [ net "BSC" "BNB Smart Chain (BEP20)" ] ]))
           (lit "BSC") = Some s'
    /\ length (lit "BSC") <= length s'.
Proof.
  apply (index_only_grows
           [ mkCoin (lit "B") (lit "B coin") [ net "BSC" "BSC" ] ]
           [ mkCoin (lit "A") (lit "A coin") [ net "BSC" "BNB Smart Chain (BEP20)" ] ]
           (lit "BSC") (lit "BSC")).
  vm_compute. reflexivity.
Defined.

Lemma record_seen (ns : list Network) (n : Network) :
  In n ns ->
  Index.record (fold_left Index.record ns []) n = fold_left Index.record ns [].
Proof.
  intros Hin. destruct (index_invariant ns) as (_ & Hval & Hnone).
  destruct (getOwn (fold_left Index.record ns []) (network n)) as [s|] eqn:E.
  - rewrite (record_recorded _ n s E).
    destruct (Hval _ _ E) as [Hfl _]. apply firstLongest_bound in Hfl.
    rewrite Forall_forall in Hfl. specialize (Hfl n Hin eq_refl).
    apply Nat.ltb_ge in Hfl. now rewrite Hfl.
  - rewrite (record_unrecorded _ n E).
    specialize (Hnone _ E). rewrite Forall_forall in Hnone.
    now rewrite (Hnone n Hin eq_refl).
Qed.

(** X19. Networks that were seen before change nothing: appending coins all
    of whose networks already occur in the dataset leaves the index as it
    is, so repeated coins and repeated networks count once. *)
Theorem seen_networks_change_nothing (d1 d2 : list Coin) :
  incl (allNetworks d2) (allNetworks d1) ->
  Index.networksMap (d1 ++ d2) = Index.networksMap d1.
Proof.
  intros Hincl. rewrite networksMap_app, networksMap_flat.
  induction (allNetworks d2) as [|n ns IH]; simpl; [reflexivity|].
  rewrite record_seen.
  - apply IH. intros x Hx. apply Hincl. now right.
  - apply Hincl. now left.
Qed.

Lemma seen_networks_change_nothing_witness :
  Index.networksMap (scenarioDataset ++ scenarioDataset)
  = Index.networksMap scenarioDataset.
Proof.
  apply (seen_networks_change_nothing scenarioDataset scenarioDataset).
  apply incl_refl.
Defined.

(** X20. A 200 answer of the networks endpoint carries a [data] object and a
    [total] equal to the number of its keys, for every comparator: sorting
    the entries and folding them back into an object loses none. *)
Theorem networks_total_counts_data
  (cmp : jsstring -> jsstring -> Z) (req : request) (w w' : world) (r : response) :
  Index.networksHandler cmp req w = (inr r, w') ->
  status r = 200 ->
  exists dataset fields,
    upstream w = Resolves (mkApiResponse dataset)
    /\ member (payload r) (lit "data") = Some (VObj fields)
    /\ member (payload r) (lit "total") = Some (num (length fields))
    /\ Permutation fields
         (map (fun p => (fst p, VStr (snd p))) (Index.networksMap dataset)).
Proof.
  intros Hrun Hst. destruct (upstream w) as [e|[dataset]] eqn:Eu.
  - rewrite (networksHandler_rejected cmp req w e Eu) in Hrun.
    injection Hrun as <- <-. discriminate.
  - rewrite (networksHandler_resolved cmp req w _ Eu) in Hrun.
    injection Hrun as <- <-. simpl.
    pose proof (networksMap_NoDup dataset) as Hnd.
    pose proof (sortedNetworks_perm cmp _ Hnd) as Hp.
    exists dataset. eexists. split; [reflexivity|]. split; [reflexivity|]. split.
    + do 2 f_equal. unfold ownKeys. rewrite !length_map.
      apply Permutation_length. rewrite Hp. apply ownEntries_perm.
    + now apply Permutation_map.
Qed.

Lemma networks_total_counts_data_witness :
  exists dataset fields,
    upstream (idleWorld (Resolves (mkApiResponse scenarioDataset)))
    = Resolves (mkApiResponse dataset)
    /\ member (payload (mkResponse 200
                 (VObj [ (lit "success", VBool true);
                         (lit "total", num 2);
                         (lit "data",
                          VObj [ (lit "BSC", VStr (lit "BNB Smart Chain (BEP20)"));
                                 (lit "ETH", VStr (lit "Ethereum (ERC20)")) ]) ])))
         (lit "data") = Some (VObj fields)
    /\ member (payload (mkResponse 200
                 (VObj [ (lit "success", VBool true);
                         (lit "total", num 2);
                         (lit "data",
                          VObj [ (lit "BSC", VStr (lit "BNB Smart Chain (BEP20)"));
                                 (lit "ETH", VStr (lit "Ethereum (ERC20)")) ]) ])))
         (lit "total") = Some (num (length fields))
    /\ Permutation fields
         (map (fun p => (fst p, VStr (snd p))) (Index.networksMap dataset)).
Proof.
  apply (networks_total_counts_data codeUnitCompare (mkRequest VUndefined)
           (idleWorld (Resolves (mkApiResponse scenarioDataset)))
           (mkWorld (Resolves (mkApiResponse scenarioDataset)) 1 [])).
  - vm_compute. reflexivity.
  - reflexivity.
Defined.

Lemma insertByIndex_sorted {V : Type}
  (e : N * (jsstring * V)) (l : list (N * (jsstring * V))) :
  StronglySorted (fun a b => (fst a <= fst b)%N) l ->
  StronglySorted (fun a b => (fst a <= fst b)%N) (insertByIndex e l).
Proof.
  induction 1 as [|e' l Hl IH He']; simpl.
  - constructor; constructor.
  - destruct (N.leb (fst e) (fst e')) eqn:E.
    + apply N.leb_le in E. constructor; [now constructor|].
      constructor; [assumption|].
      eapply Forall_impl; [|exact He']. simpl. intros a Ha. lia.
    + apply N.leb_gt in E. constructor; [assumption|].
      apply (Permutation_Forall (Permutation_sym (insertByIndex_perm e l))).
      constructor; [lia|assumption].
Qed.

Lemma sortByIndex_sorted {V : Type} (l : list (N * (jsstring * V))) :
  StronglySorted (fun a b => (fst a <= fst b)%N) (fold_right insertByIndex [] l).
Proof.
  induction l as [|e l IH]; simpl; [constructor|]. now apply insertByIndex_sorted.
Qed.

Lemma StronglySorted_map_when {A B : Type}
  (R : A -> A -> Prop) (R' : B -> B -> Prop) (P : A -> Prop) (f : A -> B)
  (l : list A) :
  (forall a b, P a -> P b -> R a b -> R' (f a) (f b)) ->
  Forall P l -> StronglySorted R l -> StronglySorted R' (map f l).
Proof.
  intros Himp HP Hs. induction Hs as [|a l Hl IH Ha]; simpl; [constructor|].
  inversion HP as [|? ? Pa Pl]; subst. constructor; [now apply IH|].
  rewrite Forall_map. rewrite Forall_forall in *. intros b Hb. auto.
Qed.

Lemma StronglySorted_filter {A : Type} (R : A -> A -> Prop) (f : A -> bool)
  (l : list A) :
  StronglySorted R l -> StronglySorted R (filter f l).
Proof.
  induction 1 as [|a l Hl IH Ha]; simpl; [constructor|].
  destruct (f a); [|assumption]. constructor; [assumption|].
  rewrite Forall_forall in *. intros b Hb. apply filter_In in Hb as [Hb _]. auto.
Qed.

(** The enumeration of any object: its array-index keys in ascending
    numeric order first. *)
Lemma ownEntries_head_numeric {V : Type} (o : props V) :
  StronglySorted numericLe
    (map fst (map snd (fold_right insertByIndex [] (indexed o)))).
Proof.
  rewrite map_map.
  apply (StronglySorted_map_when
           (fun a b => (fst a <= fst b)%N) numericLe
           (fun e => arrayIndex (fst (snd e)) = Some (fst e))).
  - intros a b Ha Hb Hle. unfold numericLe. now rewrite Ha, Hb.
  - apply (Permutation_Forall (Permutation_sym (sortByIndex_perm (indexed o)))).
    apply indexed_sound.
  - apply sortByIndex_sorted.
Qed.

(** X21. The order of the keys in the answer of the networks endpoint, for
    every dataset and every consistent comparator: first the codes that are
    array indices, in ascending numeric order, then all other codes, in
    ascending order of the comparator. *)
Theorem index_key_order
  (cmp : jsstring -> jsstring -> Z) (dataset : list Coin) :
  (forall a b, cmp a b <= 0 \/ cmp b a <= 0)%Z ->
  (forall a b c, cmp a b <= 0 -> cmp b c <= 0 -> cmp a c <= 0)%Z ->
  exists numerals others,
    ownKeys (Index.sortedNetworks cmp (Index.networksMap dataset))
    = numerals ++ others
    /\ Forall (fun k => isIndexKey k = true) numerals
    /\ StronglySorted numericLe numerals
    /\ Forall (fun k => isIndexKey k = false) others
    /\ ascending cmp others.
Proof.
  intros Htotal Htrans.
  set (m := Index.networksMap dataset).
  set (r := Index.sortedNetworks cmp m).
  set (byKey := fun a b : jsstring * jsstring => cmp (fst a) (fst b)).
  exists (map fst (map snd (fold_right insertByIndex [] (indexed r)))).
  exists (map fst (filter (fun p => negb (isIndexKey (fst p))) r)).
  split; [|split; [|split; [|split]]].
  - unfold ownKeys, ownEntries. now rewrite map_app.
  - rewrite Forall_map. apply ownEntries_head_indexed.
  - apply ownEntries_head_numeric.
  - rewrite Forall_map. apply Forall_forall. intros p Hp.
    apply filter_In in Hp as [_ Hp]. now apply negb_true_iff in Hp.
  - assert (Hnd : NoDup (map fst ([] ++ sort byKey (ownEntries m)))).
    { simpl. apply (Permutation_NoDup
                      (Permutation_map fst (Permutation_sym (sort_perm byKey _)))).
      apply (Permutation_NoDup
               (Permutation_map fst (Permutation_sym (ownEntries_perm m)))).
      apply networksMap_NoDup. }
    unfold r, Index.sortedNetworks. fold byKey.
    rewrite (rebuild_nonindex _ [] Hnd). simpl.
    unfold ascending. apply StronglySorted_map_fst.
    apply StronglySorted_filter. apply (sort_sorted byKey).
    + intros a b. apply Htotal.
    + intros a b c. apply Htrans.
Qed.

Lemma index_key_order_witness :
  exists numerals others,
    ownKeys (Index.sortedNetworks codeUnitCompare
               (Index.networksMap [numericCoin; protoCoin]))
    = numerals ++ others
    /\ Forall (fun k => isIndexKey k = true) numerals
    /\ StronglySorted numericLe numerals
    /\ Forall (fun k => isIndexKey k = false) others
    /\ ascending codeUnitCompare others.
Proof.
  apply (index_key_order codeUnitCompare [numericCoin; protoCoin]).
  - intros a b. apply codeUnitCompare_total.
  - intros a b c. apply codeUnitCompare_trans.
Defined.
